(** * jsb::internal::Process — child-process supervisor with output capture

    A shallow embedding of [internal/jsb_process.cpp]: the Windows
    command-line quoting, the per-chunk ANSI escape stripping and line
    assembly of the output pump, and the start / is_running / stop
    lifecycle of the three [ProcessImpl] variants (Windows, POSIX, null),
    over a small explicit model of the operating-system calls they make. *)

From Stdlib Require Import ZArith List Bool String Ascii DecimalString Lia.
Import ListNotations.
Local Open Scope Z_scope.

(** ** Text and bytes

    Godot's [String] is a sequence of [char32_t] code points and the pump
    buffers are [char] arrays; both are lists of integers here.  A byte is
    the value of [static_cast<unsigned char>(buffer[i])], in [0, 255]. *)

Definition GString := list Z.
Definition Bytes := list Z.

Fixpoint lit (s : string) : list Z :=
  match s with
  | EmptyString => []
  | String c r => Z.of_N (N_of_ascii c) :: lit r
  end.

Definition ESC : Z := 0x1B.
Definition BEL : Z := 0x07.
Definition LF : Z := 10.
Definition CR : Z := 13.
Definition NUL : Z := 0.
Definition LBRACKET : Z := 91.   (* '[' *)
Definition RBRACKET : Z := 93.   (* ']' *)
Definition BACKSLASH : Z := 92.
Definition SLASH : Z := 47.
Definition DQUOTE : Z := 34.
Definition SPACE : Z := 32.

(** Godot error codes returned by [on_start]. *)
Inductive Error := OK | ERR_CANT_CREATE | ERR_CANT_FORK | ERR_INVALID_DATA.

Definition Error_eqb (a b : Error) : bool :=
  match a, b with
  | OK, OK | ERR_CANT_CREATE, ERR_CANT_CREATE
  | ERR_CANT_FORK, ERR_CANT_FORK | ERR_INVALID_DATA, ERR_INVALID_DATA => true
  | _, _ => false
  end.

(** ** Windows command-line construction *)

Module Quote.

(** The disjunction tested on every character of
    [_quote_command_line_argument], in source order. *)
Definition needs_quote (c : Z) : bool :=
  (c =? 32) || (c =? 38) || (c =? 40) || (c =? 41) || (c =? 91) || (c =? 93)
  || (c =? 123) || (c =? 125) || (c =? 94) || (c =? 61) || (c =? 59)
  || (c =? 33) || (c =? 39) || (c =? 43) || (c =? 44) || (c =? 96)
  || (c =? 126).

(** The characters of the spec's quoting table. *)
Definition quote_table : list Z :=
  lit " &()[]{}^=;!'+,`~".

(** The [for] loop of [_quote_command_line_argument]: [p_text] is the whole
    argument, [rest] the characters from index [i] on. *)
Fixpoint quote_loop (p_text rest : GString) : GString :=
  match rest with
  | [] => p_text
  | c :: rest' =>
      if needs_quote c then DQUOTE :: p_text ++ [DQUOTE]
      else quote_loop p_text rest'
  end.

Definition _quote_command_line_argument (p_text : GString) : GString :=
  quote_loop p_text p_text.

(** [p_path.replace("/", "\\")]. *)
Definition replace_slashes (p : GString) : GString :=
  map (fun c => if c =? SLASH then BACKSLASH else c) p.

(** The command string assembled at the top of the Windows [on_start]. *)
Definition command_line (p_path : GString) (p_arguments : list GString) : GString :=
  fold_left (fun command E => command ++ SPACE :: _quote_command_line_argument E)
            p_arguments
            (_quote_command_line_argument (replace_slashes p_path)).

End Quote.

(** ** Logging sink

    [JSB_PROCESS_LOG(Severity, Format, ...)] appends one entry to the host's
    log; the only formats used are ["[%s] %s"] and fixed lifecycle texts. *)

Inductive Severity := Log | Verbose | ErrorSeverity.

Record LogEntry := { severity : Severity; text : GString }.

Definition LogSink := list LogEntry.

Definition JSB_PROCESS_LOG (s : Severity) (msg : GString) (sink : LogSink) : LogSink :=
  sink ++ [{| severity := s; text := msg |}].

(** ["[%s] %s"] applied to a process name and a payload. *)
Definition fmt_tagged (proc_name payload : GString) : GString :=
  lit "[" ++ proc_name ++ lit "] " ++ payload.

(** ** Engine string decoding used by [_flush]

    These are Godot engine functions, not part of this repository; they are
    modelled here as far as the pump relies on them. *)

(** A [const char*] read as a C string: the bytes before the first NUL. *)
Fixpoint c_str (bs : Bytes) : Bytes :=
  match bs with
  | [] => []
  | b :: r => if b =? NUL then [] else b :: c_str r
  end.

Definition is_cont (b : Z) : bool := (0x80 <=? b) && (b <? 0xC0).

(** UTF-8 decoding of a byte string to code points, with the flag "every
    byte decoded".  ASCII bytes stand for themselves; a multi-byte sequence
    is decoded from its lead byte and continuation bytes; a byte that can
    neither start nor continue a sequence where it stands clears the flag
    and yields the replacement character U+FFFD. *)
Fixpoint utf8_decode (bs : Bytes) : bool * GString :=
  match bs with
  | [] => (true, [])
  | b :: r =>
      let good (cp : Z) (rest : bool * GString) := (fst rest, cp :: snd rest) in
      let bad := (false, 0xFFFD :: snd (utf8_decode r)) in
      if b <? 0x80 then good b (utf8_decode r)
      else if (0xC0 <=? b) && (b <? 0xE0) then
        match r with
        | c1 :: r1 =>
            if is_cont c1
            then good ((b - 0xC0) * 64 + (c1 - 0x80)) (utf8_decode r1)
            else bad
        | _ => bad
        end
      else if (0xE0 <=? b) && (b <? 0xF0) then
        match r with
        | c1 :: c2 :: r2 =>
            if is_cont c1 && is_cont c2
            then good ((b - 0xE0) * 4096 + (c1 - 0x80) * 64 + (c2 - 0x80))
                      (utf8_decode r2)
            else bad
        | _ => bad
        end
      else if (0xF0 <=? b) && (b <? 0xF8) then
        match r with
        | c1 :: c2 :: c3 :: r3 =>
            if is_cont c1 && is_cont c2 && is_cont c3
            then good ((b - 0xF0) * 262144 + (c1 - 0x80) * 4096
                       + (c2 - 0x80) * 64 + (c3 - 0x80))
                      (utf8_decode r3)
            else bad
        | _ => bad
        end
      else bad
  end.

(** A leading byte-order mark is skipped by the engine's decoder. *)
Definition skip_bom (bs : Bytes) : Bytes :=
  match bs with
  | 0xEF :: 0xBB :: 0xBF :: r => r
  | _ => bs
  end.

(** [String::append_utf8(p)] / [String::parse_utf8(p)] on a NUL-terminated
    buffer: the status and the decoded text.  An empty C string decodes,
    with status [OK], to the empty text. *)
Definition append_utf8 (p : Bytes) : Error * GString :=
  let '(ok, s) := utf8_decode (skip_bom (c_str p)) in
  (if ok then OK else ERR_INVALID_DATA, s).

(** [String::utf8(p, len)]: the decoded text, whatever the status. *)
Definition String_utf8 (p : Bytes) : GString := snd (append_utf8 p).

(** [String] built from a [wchar_t] pointer: the wide characters before the
    first NUL. *)
Definition String_of_wide (w : list Z) : GString := c_str w.

(** ** The per-chunk loop of [_thread_run]

    The Windows and POSIX pumps run the same [for] loop over the bytes just
    read; they differ in [_flush] only.  [consume bs st] is that loop with
    [bs] the bytes from index [i] to the end of the chunk.  The two inner
    [while] loops are the nested fixpoints; leaving them resumes the outer
    loop one byte further, as the [continue] followed by [++i] does. *)

Definition is_csi_final (c : Z) : bool := (0x40 <=? c) && (c <=? 0x7E).

Section Consume.
Context {St : Type}.
Variable _append_char_to_line : Z -> St -> St.
Variable _flush : St -> St.

Fixpoint consume (bs : Bytes) (st : St) {struct bs} : St :=
  match bs with
  | [] => st
  | ch :: rest =>
      if ch =? ESC then
        match rest with
        | [] => st
        | next :: rest' =>
            if next =? LBRACKET then
              (fix csi (l : Bytes) : St :=
                 match l with
                 | [] => st
                 | c :: l' => if is_csi_final c then consume l' st else csi l'
                 end) rest'
            else if next =? RBRACKET then
              (fix osc (l : Bytes) : St :=
                 match l with
                 | [] => st
                 | c :: l' =>
                     if c =? BEL then consume l' st
                     else if c =? ESC then
                       match l' with
                       | c' :: l'' =>
                           if c' =? BACKSLASH then consume l'' st else osc l'
                       | [] => osc l'
                       end
                     else osc l'
                 end) rest'
            else consume rest' st
        end
      else if (ch =? LF) || (ch =? CR)
           then consume rest (_flush (_append_char_to_line NUL st))
           else consume rest (_append_char_to_line ch st)
  end.

(** Successive chunks handed to the loop, one [read] each. *)
Definition consume_all (chunks : list Bytes) (st : St) : St :=
  fold_left (fun s chunk => consume chunk s) chunks st.
End Consume.

(** Where the outer loop resumes after the CSI scan started at [l]. *)
Fixpoint skip_csi (l : Bytes) : Bytes :=
  match l with
  | [] => []
  | c :: l' => if is_csi_final c then l' else skip_csi l'
  end.

(** Where the outer loop resumes after the OSC scan started at [l]. *)
Fixpoint skip_osc (l : Bytes) : Bytes :=
  match l with
  | [] => []
  | c :: l' =>
      if c =? BEL then l'
      else if c =? ESC then
        match l' with
        | c' :: l'' => if c' =? BACKSLASH then l'' else skip_osc l'
        | [] => skip_osc l'
        end
      else skip_osc l'
  end.

(** ** The [Process] base class

    [Thread] is Godot's thread object: [start] launches it and
    [wait_to_finish] joins it. *)

Inductive ThreadState := Unstarted | Started | Joined.

(** The virtual interface of [Process] ([on_start], [_is_running],
    [on_stop]) together with the default-constructed object.  [Faults]
    says which system calls of [on_start] the operating system refuses, and
    [World] is the operating-system state the calls act on. *)
Class ProcessOps (Impl World Faults : Type) := {
  make_impl : Impl;
  on_start : Faults -> GString -> GString -> list GString ->
             Impl -> World -> Error * Impl * World;
  _is_running : Impl -> World -> bool * World;
  on_stop : Impl -> World -> Impl * World
}.

Section Process.
Context {Impl World Faults : Type} {ops : ProcessOps Impl World Faults}.

Definition is_running (self : Impl) (w : World) : bool * World :=
  _is_running self w.

(** [void Process::start]: the [Error] of [on_start] is dropped. *)
Definition start (flt : Faults) (p_name p_path : GString)
           (p_arguments : list GString) (self : Impl) (w : World)
  : unit * (Impl * World) :=
  let '(_, self', w') := on_start flt p_name p_path p_arguments self w in
  (tt, (self', w')).

(** [Process::create]: the new object is returned whatever [start] did. *)
Definition create (flt : Faults) (p_name p_path : GString)
           (p_arguments : list GString) (w : World) : Impl * World :=
  snd (start flt p_name p_path p_arguments make_impl w).

Definition stop (self : Impl) (w : World) : Impl * World :=
  let '(running, w') := is_running self w in
  if negb running then (self, w') else on_stop self w'.
End Process.

(** ** Windows implementation *)

Module Win.

Definition HANDLE := Z.
Definition nullptr : HANDLE := 0.
Definition STILL_ACTIVE : Z := 259.
Definition STARTF_USESTDHANDLES : Z := 256.

(** System calls and thread operations, as recorded in the call history. *)
Inductive Call :=
| CreatePipe_call (ok : bool)
| SetHandleInformation_call (h : HANDLE) (ok : bool)
| CreateProcessW_call (command : GString) (ok : bool)
| CloseHandle_call (h : HANDLE)
| TerminateProcess_call (h : HANDLE)
| Thread_start_call
| Thread_wait_to_finish_call.

Inductive ChildState := NoChild | Alive | Exited (code : Z).

(** The operating system as the supervisor sees it: its open handles, the
    one child process with the process handle that names it and the
    standard handles it was created with, the calls made so far (oldest
    first) and the log sink. *)
Record OS := {
  open_handles : list HANDLE;
  next_handle : positive;
  child : ChildState;
  child_hProcess : HANDLE;
  child_hStdOutput : HANDLE;
  child_hStdError : HANDLE;
  calls : list Call;
  sink : LogSink
}.

Record Faults := {
  CreatePipe_ok : bool;
  SetHandleInformation_ok : bool;
  CreateProcessW_ok : bool
}.

(** The data members of the Windows [ProcessImpl]; [pi.si] and [pi.pi] are
    kept by the fields the code touches. *)
Record ProcessImpl := {
  si_dwFlags : Z;
  si_hStdOutput : HANDLE;
  si_hStdError : HANDLE;
  pi_hProcess : HANDLE;
  pi_hThread : HANDLE;
  proc_name : GString;
  rd_pipe : HANDLE;
  rd_line : Bytes;
  thread : ThreadState;
  is_closing : bool
}.

Definition new_ProcessImpl : ProcessImpl :=
  {| si_dwFlags := 0; si_hStdOutput := nullptr; si_hStdError := nullptr;
     pi_hProcess := nullptr; pi_hThread := nullptr; proc_name := [];
     rd_pipe := nullptr; rd_line := []; thread := Unstarted;
     is_closing := false |}.

Definition set_rd_line (l : Bytes) (p : ProcessImpl) : ProcessImpl :=
  {| si_dwFlags := si_dwFlags p; si_hStdOutput := si_hStdOutput p;
     si_hStdError := si_hStdError p; pi_hProcess := pi_hProcess p;
     pi_hThread := pi_hThread p; proc_name := proc_name p;
     rd_pipe := rd_pipe p; rd_line := l; thread := thread p;
     is_closing := is_closing p |}.

Definition set_sink (s : LogSink) (os : OS) : OS :=
  {| open_handles := open_handles os; next_handle := next_handle os;
     child := child os; child_hProcess := child_hProcess os;
     child_hStdOutput := child_hStdOutput os;
     child_hStdError := child_hStdError os; calls := calls os; sink := s |}.

Definition set_child (c : ChildState) (os : OS) : OS :=
  {| open_handles := open_handles os; next_handle := next_handle os;
     child := c; child_hProcess := child_hProcess os;
     child_hStdOutput := child_hStdOutput os;
     child_hStdError := child_hStdError os; calls := calls os;
     sink := sink os |}.

Definition record_call (c : Call) (os : OS) : OS :=
  {| open_handles := open_handles os; next_handle := next_handle os;
     child := child os; child_hProcess := child_hProcess os;
     child_hStdOutput := child_hStdOutput os;
     child_hStdError := child_hStdError os; calls := calls os ++ [c];
     sink := sink os |}.

Definition log (s : Severity) (msg : GString) (os : OS) : OS :=
  set_sink (JSB_PROCESS_LOG s msg (sink os)) os.

Definition handle_open (h : HANDLE) (os : OS) : bool :=
  existsb (Z.eqb h) (open_handles os).

(** *** System calls *)

(** [CreatePipe(&pipe[0], &pipe[1], &sa, 0)]: two fresh handles, read end
    first, or failure. *)
Definition CreatePipe (flt : Faults) (os : OS) : option (HANDLE * HANDLE) * OS :=
  let os := record_call (CreatePipe_call (CreatePipe_ok flt)) os in
  if CreatePipe_ok flt then
    let rd := Z.pos (next_handle os) in
    let wr := Z.pos (next_handle os + 1) in
    (Some (rd, wr),
     {| open_handles := open_handles os ++ [rd; wr];
        next_handle := (next_handle os + 2)%positive;
        child := child os; child_hProcess := child_hProcess os;
        child_hStdOutput := child_hStdOutput os;
        child_hStdError := child_hStdError os; calls := calls os;
        sink := sink os |})
  else (None, os).

Definition SetHandleInformation (flt : Faults) (h : HANDLE) (os : OS) : bool * OS :=
  (SetHandleInformation_ok flt,
   record_call (SetHandleInformation_call h (SetHandleInformation_ok flt)) os).

(** [CreateProcessW] with [si] carrying [STARTF_USESTDHANDLES]: on success
    the child is alive with the standard handles of [si], and fresh process
    and thread handles are returned in [pi.pi]. *)
Definition CreateProcessW (flt : Faults) (command : GString)
           (hStdOutput hStdError : HANDLE) (os : OS)
  : option (HANDLE * HANDLE) * OS :=
  let os := record_call (CreateProcessW_call command (CreateProcessW_ok flt)) os in
  if CreateProcessW_ok flt then
    let hp := Z.pos (next_handle os) in
    let ht := Z.pos (next_handle os + 1) in
    (Some (hp, ht),
     {| open_handles := open_handles os ++ [hp; ht];
        next_handle := (next_handle os + 2)%positive;
        child := Alive; child_hProcess := hp;
        child_hStdOutput := hStdOutput; child_hStdError := hStdError;
        calls := calls os; sink := sink os |})
  else (None, os).

Definition CloseHandle (h : HANDLE) (os : OS) : OS :=
  let os := record_call (CloseHandle_call h) os in
  {| open_handles := remove Z.eq_dec h (open_handles os);
     next_handle := next_handle os;
     child := child os; child_hProcess := child_hProcess os;
     child_hStdOutput := child_hStdOutput os;
     child_hStdError := child_hStdError os; calls := calls os;
     sink := sink os |}.

(** [TerminateProcess(h, 0)]: kills the child when [h] is its open process
    handle and it is still alive. *)
Definition TerminateProcess (h : HANDLE) (os : OS) : OS :=
  let os' := record_call (TerminateProcess_call h) os in
  if handle_open h os && (h =? child_hProcess os) then
    match child os with
    | Alive => set_child (Exited 0) os'
    | _ => os'
    end
  else os'.

(** [GetExitCodeProcess(h, &code)]: [None] when the call fails. *)
Definition GetExitCodeProcess (h : HANDLE) (os : OS) : option Z :=
  if handle_open h os && (h =? child_hProcess os) then
    match child os with
    | Alive => Some STILL_ACTIVE
    | Exited c => Some c
    | NoChild => None
    end
  else None.

(** *** Line buffer and decoding *)

Definition _append_char_to_line (c : Z) (st : ProcessImpl * OS) : ProcessImpl * OS :=
  (set_rd_line (rd_line (fst st) ++ [c]) (fst st), snd st).

(** What the reader thread does once it has left its loop: the code of
    [_thread_run] after the [while]. *)
Definition reader_exit (self : ProcessImpl) (os : OS) : OS :=
  log Verbose (lit "[" ++ proc_name self ++ lit "] closed") os.

Section CodePage.
(** [acp bs] is the text [MultiByteToWideChar(CP_ACP, 0, bs, size, ...)]
    produces for [bs] under the system's ANSI code page; the empty list
    stands for a conversion that yields nothing ([num == 0]). *)
Variable acp : Bytes -> list Z.

(** The decoded [output] of [_flush] for a line buffer.  [buffer] is the
    converted text followed by the extra slot of [resize(num + 1)], read
    as NUL; the second conversion call returns what the first measured,
    so [buffer] is cleared exactly when nothing was converted. *)
Definition decode_line (line : Bytes) : GString :=
  let num := Z.of_nat (List.length (acp line)) in
  let buffer := if 0 <? num then acp line ++ [NUL] else [] in
  match buffer with
  | [] => String_utf8 line
  | _ => String_of_wide buffer
  end.

Definition _flush (st : ProcessImpl * OS) : ProcessImpl * OS :=
  let '(self, os) := st in
  match rd_line self with
  | [] => st
  | _ =>
      let output := decode_line (rd_line self) in
      let os :=
        match output with
        | [] => os
        | _ => log Log (fmt_tagged (proc_name self) output) os
        end in
      (set_rd_line [] self, os)
  end.

(** The chunk loop of the Windows [_thread_run]. *)
Definition consume_chunk : Bytes -> ProcessImpl * OS -> ProcessImpl * OS :=
  consume _append_char_to_line _flush.

(** [_thread_run]: [reads] are the results of the successive [ReadFile]
    calls, [None] for a call that fails.  The result is [None] when the
    thread is still blocked in [ReadFile] after the last of them. *)
Fixpoint _thread_run (reads : list (option Bytes)) (st : ProcessImpl * OS)
  : option (ProcessImpl * OS) :=
  let closed st := Some (fst st, reader_exit (fst st) (snd st)) in
  if is_closing (fst st) then closed st
  else match reads with
       | [] => None
       | None :: _ => closed st
       | Some chunk :: reads' => _thread_run reads' (consume_chunk chunk st)
       end.
End CodePage.

(** *** Lifecycle *)

Definition on_start (flt : Faults) (p_name p_path : GString)
           (p_arguments : list GString) (self : ProcessImpl) (os : OS)
  : Error * ProcessImpl * OS :=
  let command := Quote.command_line p_path p_arguments in
  (* ZeroMemory(&pi.si), ZeroMemory(&pi.pi) *)
  let zeroed :=
    {| si_dwFlags := 0; si_hStdOutput := nullptr; si_hStdError := nullptr;
       pi_hProcess := nullptr; pi_hThread := nullptr;
       proc_name := proc_name self; rd_pipe := rd_pipe self;
       rd_line := rd_line self; thread := thread self;
       is_closing := is_closing self |} in
  match CreatePipe flt os with
  | (None, os1) => (ERR_CANT_FORK, zeroed, os1)
  | (Some (pipe0, pipe1), os1) =>
      match SetHandleInformation flt pipe0 os1 with
      | (false, os2) => (ERR_CANT_FORK, zeroed, os2)
      | (true, os2) =>
          let with_si :=
            {| si_dwFlags := Z.lor (si_dwFlags zeroed) STARTF_USESTDHANDLES;
               si_hStdOutput := pipe1; si_hStdError := pipe1;
               pi_hProcess := nullptr; pi_hThread := nullptr;
               proc_name := proc_name self; rd_pipe := rd_pipe self;
               rd_line := rd_line self; thread := thread self;
               is_closing := is_closing self |} in
          match CreateProcessW flt command
                               (si_hStdOutput with_si) (si_hStdError with_si) os2 with
          | (None, os3) =>
              let os4 := CloseHandle pipe0 os3 in
              let os5 := CloseHandle pipe1 os4 in
              (ERR_CANT_FORK, with_si, os5)
          | (Some (hProcess, hThread), os3) =>
              let os4 := CloseHandle pipe1 os3 in
              let os5 := record_call Thread_start_call os4 in
              (OK,
               {| si_dwFlags := si_dwFlags with_si;
                  si_hStdOutput := pipe1; si_hStdError := pipe1;
                  pi_hProcess := hProcess; pi_hThread := hThread;
                  proc_name := p_name; rd_pipe := pipe0;
                  rd_line := rd_line self; thread := Started;
                  is_closing := is_closing self |},
               os5)
          end
      end
  end.

Definition _is_running (self : ProcessImpl) (os : OS) : bool * OS :=
  if is_closing self || (pi_hProcess self =? nullptr) then (false, os)
  else match GetExitCodeProcess (pi_hProcess self) os with
       | None => (false, os)
       | Some dw_exit_code =>
           if negb (dw_exit_code =? STILL_ACTIVE) then (false, os)
           else (true, os)
       end.

(** [thread.wait_to_finish()] returns once the reader has run to its end.
    The reader is taken to find the flag set at the head of its loop, with
    no chunk left to consume: what the join adds is the reader's exit
    code. *)
Definition on_stop (self : ProcessImpl) (os : OS) : ProcessImpl * OS :=
  let os := log Verbose (lit "[" ++ proc_name self ++ lit "] terminating...") os in
  let os := TerminateProcess (pi_hProcess self) os in
  let os := CloseHandle (pi_hProcess self) os in
  let os := CloseHandle (pi_hThread self) os in
  let os := CloseHandle (rd_pipe self) os in
  let os := record_call Thread_wait_to_finish_call os in
  let os := reader_exit self os in
  let os := log Log (lit "[" ++ proc_name self ++ lit "] terminated") os in
  ({| si_dwFlags := si_dwFlags self; si_hStdOutput := si_hStdOutput self;
      si_hStdError := si_hStdError self; pi_hProcess := pi_hProcess self;
      pi_hThread := pi_hThread self; proc_name := proc_name self;
      rd_pipe := nullptr; rd_line := rd_line self; thread := Joined;
      is_closing := true |},
   os).

#[global] Instance ops : ProcessOps ProcessImpl OS Faults := {
  make_impl := new_ProcessImpl;
  on_start := on_start;
  _is_running := _is_running;
  on_stop := on_stop
}.

(** What the operating system may do on its own between two calls of the
    supervisor: the child exits with some code. *)
Inductive os_step : OS -> OS -> Prop :=
| child_exits os code : child os = Alive -> os_step os (set_child (Exited code) os).

Inductive os_steps : OS -> OS -> Prop :=
| os_steps_refl os : os_steps os os
| os_steps_step os1 os2 os3 : os_step os1 os2 -> os_steps os2 os3 -> os_steps os1 os3.

(** The calls that attempt a kill or join the reader thread. *)
Definition is_kill_or_join (c : Call) : bool :=
  match c with
  | TerminateProcess_call _ | Thread_wait_to_finish_call => true
  | _ => false
  end.

(** A quiet system before any process was started. *)
Definition boot : OS :=
  {| open_handles := []; next_handle := 4%positive; child := NoChild;
     child_hProcess := nullptr; child_hStdOutput := nullptr;
     child_hStdError := nullptr; calls := []; sink := [] |}.

Definition no_faults : Faults :=
  {| CreatePipe_ok := true; SetHandleInformation_ok := true;
     CreateProcessW_ok := true |}.

End Win.

(** ** POSIX implementation *)

Module Posix.

Definition STDOUT_FILENO : Z := 1.
Definition STDERR_FILENO : Z := 2.
Definition SIGKILL : Z := 9.

(** What a descriptor refers to: one of the streams the supervisor itself
    was started with, or an end of the pipe made by [on_start]. *)
Inductive FileObj := Inherited (n : Z) | PipeRead | PipeWrite.

Definition FdTable := list (Z * FileObj).

Fixpoint fd_lookup (fd : Z) (t : FdTable) : option FileObj :=
  match t with
  | [] => None
  | (k, o) :: r => if k =? fd then Some o else fd_lookup fd r
  end.

Definition fd_close (fd : Z) (t : FdTable) : FdTable :=
  filter (fun e => negb (fst e =? fd)) t.

Definition fd_dup2 (oldfd newfd : Z) (t : FdTable) : FdTable :=
  match fd_lookup oldfd t with
  | Some o => (newfd, o) :: fd_close newfd t
  | None => t
  end.

Definition fd_open (fd : Z) (t : FdTable) : bool :=
  match fd_lookup fd t with Some _ => true | None => false end.

(** The lowest descriptor number not in use, searched upwards from [n]. *)
Fixpoint first_free (fuel : nat) (n : Z) (t : FdTable) : Z :=
  match fuel with
  | O => n
  | S fuel' => if fd_open n t then first_free fuel' (n + 1) t else n
  end.

Definition lowest_free (t : FdTable) : Z := first_free (List.length t) 0 t.

Inductive Call :=
| pipe_call (ok : bool)
| fork_call (ok : bool)
| close_call (fd : Z)
| kill_call (pid sig : Z)
| waitpid_call (pid : Z) (nohang : bool)
| Thread_start_call
| Thread_wait_to_finish_call.

(** The child as the kernel knows it; a zombie carries its wait status. *)
Inductive ChildState := NoChild | Running | Zombie (status : Z) | Reaped.

Record OS := {
  fds : FdTable;
  next_pid : positive;
  child_pid : Z;
  child : ChildState;
  child_fds : FdTable;
  child_argv : list GString;
  child_execvp_ok : bool;
  calls : list Call;
  sink : LogSink
}.

Record Faults := { pipe_ok : bool; fork_ok : bool; execvp_ok : bool }.

Record ProcessImpl := {
  proc_name : GString;
  pipefd0 : Z;
  pipefd1 : Z;
  child_id_ : Z;
  thread : ThreadState;
  is_closing : bool;
  rd_line : Bytes
}.

Definition new_ProcessImpl : ProcessImpl :=
  {| proc_name := []; pipefd0 := 0; pipefd1 := 0; child_id_ := -1;
     thread := Unstarted; is_closing := false; rd_line := [] |}.

Definition set_rd_line (l : Bytes) (p : ProcessImpl) : ProcessImpl :=
  {| proc_name := proc_name p; pipefd0 := pipefd0 p; pipefd1 := pipefd1 p;
     child_id_ := child_id_ p; thread := thread p;
     is_closing := is_closing p; rd_line := l |}.

Definition set_fds (t : FdTable) (os : OS) : OS :=
  {| fds := t; next_pid := next_pid os; child_pid := child_pid os;
     child := child os; child_fds := child_fds os;
     child_argv := child_argv os; child_execvp_ok := child_execvp_ok os;
     calls := calls os; sink := sink os |}.

Definition set_child (c : ChildState) (os : OS) : OS :=
  {| fds := fds os; next_pid := next_pid os; child_pid := child_pid os;
     child := c; child_fds := child_fds os;
     child_argv := child_argv os; child_execvp_ok := child_execvp_ok os;
     calls := calls os; sink := sink os |}.

Definition set_sink (s : LogSink) (os : OS) : OS :=
  {| fds := fds os; next_pid := next_pid os; child_pid := child_pid os;
     child := child os; child_fds := child_fds os;
     child_argv := child_argv os; child_execvp_ok := child_execvp_ok os;
     calls := calls os; sink := s |}.

Definition record_call (c : Call) (os : OS) : OS :=
  {| fds := fds os; next_pid := next_pid os; child_pid := child_pid os;
     child := child os; child_fds := child_fds os;
     child_argv := child_argv os; child_execvp_ok := child_execvp_ok os;
     calls := calls os ++ [c]; sink := sink os |}.

Definition log (s : Severity) (msg : GString) (os : OS) : OS :=
  set_sink (JSB_PROCESS_LOG s msg (sink os)) os.

(** *** System calls *)

(** [pipe(pipefd)]: the two lowest free descriptors, read end first, or
    [None] for the result -1. *)
Definition pipe (flt : Faults) (os : OS) : option (Z * Z) * OS :=
  let os := record_call (pipe_call (pipe_ok flt)) os in
  if pipe_ok flt then
    let rd := lowest_free (fds os) in
    let t := fds os ++ [(rd, PipeRead)] in
    let wr := lowest_free t in
    (Some (rd, wr), set_fds (t ++ [(wr, PipeWrite)]) os)
  else (None, os).

Definition close (fd : Z) (os : OS) : OS :=
  set_fds (fd_close fd (fds os)) (record_call (close_call fd) os).

(** The branch of [on_start] run by the child after [fork] returned 0, on
    its own copy [t] of the descriptor table: the descriptor table it
    reaches [execvp] with. *)
Definition child_branch (pipefd0 pipefd1 : Z) (t : FdTable) : FdTable :=
  let t := fd_close pipefd0 t in
  let t := fd_dup2 pipefd1 STDOUT_FILENO t in
  fd_close pipefd1 t.

(** [fork()]: the parent's view.  The result is the child's pid, or -1.
    The call returns with the child running the child branch of
    [on_start]; recorded for it are the descriptor table and the arguments
    it reaches [execvp] with, and whether that [execvp] is going to
    succeed.  What a failing [execvp] leads to is a later step of the
    system ([os_step]). *)
Definition fork (flt : Faults) (pipefd0 pipefd1 : Z) (argv : list GString)
           (os : OS) : Z * OS :=
  let os := record_call (fork_call (fork_ok flt)) os in
  if fork_ok flt then
    (Z.pos (next_pid os),
     {| fds := fds os; next_pid := (next_pid os + 1)%positive;
        child_pid := Z.pos (next_pid os);
        child := Running;
        child_fds := child_branch pipefd0 pipefd1 (fds os);
        child_argv := argv; child_execvp_ok := execvp_ok flt;
        calls := calls os; sink := sink os |})
  else (-1, os).

Definition kill (pid sig : Z) (os : OS) : Z * OS :=
  let os' := record_call (kill_call pid sig) os in
  if (0 <? pid) && (pid =? child_pid os) then
    match child os with
    | Running => (0, set_child (Zombie sig) os')
    | Zombie _ => (0, os')
    | _ => (-1, os')
    end
  else (-1, os').

(** [waitpid(pid, &status, options)]: the return value, the status stored
    (0 when none is), and the new state.  A blocking wait on a running
    child returns once that child has ended. *)
Definition waitpid (pid : Z) (nohang : bool) (os : OS) : Z * Z * OS :=
  let os' := record_call (waitpid_call pid nohang) os in
  if (0 <? pid) && (pid =? child_pid os) then
    match child os with
    | Running => if nohang then (0, 0, os') else (pid, 0, set_child Reaped os')
    | Zombie status => (pid, status, set_child Reaped os')
    | _ => (-1, 0, os')
    end
  else (-1, 0, os').

Definition WEXITSTATUS (status : Z) : Z := Z.land (Z.shiftr status 8) 255.

(** *** Line buffer and decoding *)

Definition _append_char_to_line (c : Z) (st : ProcessImpl * OS) : ProcessImpl * OS :=
  (set_rd_line (rd_line (fst st) ++ [c]) (fst st), snd st).

Definition _flush (st : ProcessImpl * OS) : ProcessImpl * OS :=
  let '(self, os) := st in
  match rd_line self with
  | [] => st
  | _ =>
      let os :=
        match append_utf8 (rd_line self) with
        | (OK, line) => log Log (fmt_tagged (proc_name self) line) os
        | _ => os
        end in
      (set_rd_line [] self, os)
  end.

(** The chunk loop of the POSIX [_thread_run]. *)
Definition consume_chunk : Bytes -> ProcessImpl * OS -> ProcessImpl * OS :=
  consume _append_char_to_line _flush.

(** What one [read] on the pipe returns: data, 0 at end of file, or -1 with
    [errno] either [EINTR] or something else. *)
Inductive ReadResult := Data (chunk : Bytes) | Eof | Interrupted | Failed.

Definition decimal (n : Z) : GString := lit (NilZero.string_of_int (Z.to_int n)).

(** The code of [_thread_run] after its loops. *)
Definition thread_epilogue (st : ProcessImpl * OS) : ProcessImpl * OS :=
  let '(self, os) := st in
  let os := close (pipefd0 self) os in
  let '(_, status, os) := waitpid (child_id_ self) false os in
  (self,
   log Verbose (lit "[" ++ proc_name self ++ lit "] closed ("
                ++ decimal (WEXITSTATUS status) ++ lit ")") os).

(** [_thread_run]: [reads] are the results of the successive [read] calls
    and [at_head] tells whether control is at the head of the outer loop,
    where [is_closing] is tested, or inside the inner one.  The result is
    [None] when the thread is still looping after the last of [reads]. *)
Fixpoint _thread_run (reads : list ReadResult) (at_head : bool)
         (st : ProcessImpl * OS) : option (ProcessImpl * OS) :=
  if at_head && is_closing (fst st) then Some (thread_epilogue st)
  else match reads with
       | [] => None
       | Data chunk :: reads' => _thread_run reads' false (consume_chunk chunk st)
       | Eof :: reads' => _thread_run reads' true st
       | Interrupted :: reads' => _thread_run reads' true st
       | Failed :: _ =>
           Some (thread_epilogue
                   (fst st,
                    log ErrorSeverity
                        (lit "[" ++ proc_name (fst st) ++ lit "] failed to read pipe")
                        (snd st)))
       end.

(** *** Lifecycle *)

Definition on_start (flt : Faults) (p_name p_path : GString)
           (p_arguments : list GString) (self : ProcessImpl) (os : OS)
  : Error * ProcessImpl * OS :=
  let named :=
    {| proc_name := p_name; pipefd0 := pipefd0 self; pipefd1 := pipefd1 self;
       child_id_ := child_id_ self; thread := thread self;
       is_closing := is_closing self; rd_line := rd_line self |} in
  match pipe flt os with
  | (None, os1) => (ERR_CANT_CREATE, named, os1)
  | (Some (rd, wr), os1) =>
      let '(pid, os2) := fork flt rd wr (p_path :: p_arguments) os1 in
      let forked :=
        {| proc_name := p_name; pipefd0 := rd; pipefd1 := wr;
           child_id_ := pid; thread := thread self;
           is_closing := is_closing self; rd_line := rd_line self |} in
      if pid <? 0 then (ERR_CANT_FORK, forked, os2)
      else
        let os3 := close wr os2 in
        let os4 := record_call Thread_start_call os3 in
        (OK,
         {| proc_name := p_name; pipefd0 := rd; pipefd1 := wr;
            child_id_ := pid; thread := Started;
            is_closing := is_closing self; rd_line := rd_line self |},
         os4)
  end.

Definition _is_running (self : ProcessImpl) (os : OS) : bool * OS :=
  if is_closing self || (child_id_ self <? 0) then (false, os)
  else let '(ret, _, os') := waitpid (child_id_ self) true os in
       (ret =? 0, os').

(** [thread.wait_to_finish()] returns once the reader has run to its end.
    The reader is taken to find the flag set at the head of its outer
    loop, with no chunk left to consume: what the join adds is the reader's
    exit code, [thread_epilogue], run on the handle as [on_stop] has left
    it by then, [pipefd] reset to 0. *)
Definition on_stop (self : ProcessImpl) (os : OS) : ProcessImpl * OS :=
  let os := log Verbose (lit "[" ++ proc_name self ++ lit "] terminating...") os in
  let '(ret, os) := kill (child_id_ self) SIGKILL os in
  let os := close (pipefd0 self) os in
  let closing :=
    {| proc_name := proc_name self; pipefd0 := 0; pipefd1 := 0;
       child_id_ := child_id_ self; thread := Joined; is_closing := true;
       rd_line := rd_line self |} in
  let os := if ret =? 0
            then let '(_, _, os') := waitpid (child_id_ self) false os in os'
            else os in
  let os := record_call Thread_wait_to_finish_call os in
  let os := snd (thread_epilogue (closing, os)) in
  let os := log Log (lit "[" ++ proc_name self ++ lit "] terminated") os in
  (closing, os).

#[global] Instance ops : ProcessOps ProcessImpl OS Faults := {
  make_impl := new_ProcessImpl;
  on_start := on_start;
  _is_running := _is_running;
  on_stop := on_stop
}.

(** What the operating system may do on its own between two calls of the
    supervisor: the child ends with some wait status; a child whose
    [execvp] fails logs an error in its own process and raises [SIGKILL]
    on itself. *)
Inductive os_step : OS -> OS -> Prop :=
| child_exits os status :
    child os = Running -> os_step os (set_child (Zombie status) os)
| child_execvp_fails os :
    child os = Running -> child_execvp_ok os = false ->
    os_step os (set_child (Zombie SIGKILL) os).

Inductive os_steps : OS -> OS -> Prop :=
| os_steps_refl os : os_steps os os
| os_steps_step os1 os2 os3 : os_step os1 os2 -> os_steps os2 os3 -> os_steps os1 os3.

(** The calls that attempt a kill or join the reader thread. *)
Definition is_kill_or_join (c : Call) : bool :=
  match c with
  | kill_call _ _ | Thread_wait_to_finish_call => true
  | _ => false
  end.

(** A supervisor with its three standard streams open and no child. *)
Definition boot : OS :=
  {| fds := [(0, Inherited 0); (1, Inherited 1); (2, Inherited 2)];
     next_pid := 100%positive; child_pid := 0; child := NoChild;
     child_fds := [];
     child_argv := []; child_execvp_ok := true; calls := []; sink := [] |}.

Definition no_faults : Faults :=
  {| pipe_ok := true; fork_ok := true; execvp_ok := true |}.

End Posix.

(** ** Null implementation (platforms without process spawning) *)

Module Null.

Inductive ProcessImpl := null_impl.

#[global] Instance ops : ProcessOps ProcessImpl unit unit := {
  make_impl := null_impl;
  on_start := fun _ _ _ _ self w => (OK, self, w);
  _is_running := fun _ w => (false, w);
  on_stop := fun self w => (self, w)
}.

End Null.

(** ** Vocabulary of the statements below *)

(** [settled bs]: the chunk loop run over [bs] alone stops exactly at the
    end of [bs] and outside any escape sequence — [bs] does not end in a
    lone ESC, nor inside a CSI without final byte or an OSC without
    terminator. *)
Fixpoint settled (bs : Bytes) : bool :=
  match bs with
  | [] => true
  | ch :: rest =>
      if ch =? ESC then
        match rest with
        | [] => false
        | next :: rest' =>
            if next =? LBRACKET then
              (fix csi (l : Bytes) : bool :=
                 match l with
                 | [] => false
                 | c :: l' => if is_csi_final c then settled l' else csi l'
                 end) rest'
            else if next =? RBRACKET then
              (fix osc (l : Bytes) : bool :=
                 match l with
                 | [] => false
                 | c :: l' =>
                     if c =? BEL then settled l'
                     else if c =? ESC then
                       match l' with
                       | c' :: l'' =>
                           if c' =? BACKSLASH then settled l'' else osc l'
                       | [] => osc l'
                       end
                     else osc l'
                 end) rest'
            else settled rest'
        end
      else settled rest
  end.

(** A well-formed CSI sequence: ESC, '[', bytes that are not final bytes,
    and one final byte in 0x40..0x7E. *)
Definition wf_csi (seq : Bytes) : Prop :=
  exists params final,
    seq = ESC :: LBRACKET :: params ++ [final]
    /\ Forall (fun c => is_csi_final c = false) params
    /\ is_csi_final final = true.

(** An OSC payload: it holds no BEL and no ESC directly followed by a
    backslash. *)
Fixpoint osc_payload (l : Bytes) : bool :=
  match l with
  | [] => true
  | c :: l' =>
      negb (c =? BEL)
      && negb ((c =? ESC)
               && match l' with c' :: _ => c' =? BACKSLASH | [] => false end)
      && osc_payload l'
  end.

(** A well-formed OSC sequence: ESC, ']', a payload, and BEL or ESC
    backslash as terminator. *)
Definition wf_osc (seq : Bytes) : Prop :=
  exists payload term,
    seq = ESC :: RBRACKET :: payload ++ term
    /\ osc_payload payload = true
    /\ (term = [BEL] \/ term = [ESC; BACKSLASH]).

Definition well_formed (seq : Bytes) : Prop := wf_csi seq \/ wf_osc seq.

(** How many kill attempts and thread joins the call history holds. *)
Definition win_kills_joins (os : Win.OS) : nat :=
  List.length (filter Win.is_kill_or_join (Win.calls os)).

Definition posix_kills_joins (os : Posix.OS) : nat :=
  List.length (filter Posix.is_kill_or_join (Posix.calls os)).

Section Idempotence.
Context {Impl World Faults : Type} {ops : ProcessOps Impl World Faults}.
(** What the operating system may do between two calls, and the count of
    kill attempts and joins made so far. *)
Variable steps : World -> World -> Prop.
Variable kills_joins : World -> nat.

(** [stop] on a handle that is not running changes nothing in the handle
    and attempts no kill and no join. *)
Definition stop_noop (self : Impl) (w : World) : Prop :=
  fst (stop self w) = self
  /\ kills_joins (snd (stop self w)) = kills_joins w.

(** After [stop] has returned, and whatever the operating system does
    next, [is_running] is false and a further [stop] is a no-op. *)
Definition stop_is_idempotent (self : Impl) (w : World) : Prop :=
  (fst (is_running self w) = false -> stop_noop self w)
  /\ forall w2, steps (snd (stop self w)) w2 ->
       fst (is_running (fst (stop self w)) w2) = false
       /\ stop_noop (fst (stop self w)) w2.
End Idempotence.

(** The kernel knows the child of [self] as running and [self] is not
    closing: what the POSIX [_is_running] reports. *)
Definition posix_live (self : Posix.ProcessImpl) (os : Posix.OS) : bool :=
  negb (Posix.is_closing self || (Posix.child_id_ self <? 0))
  && ((0 <? Posix.child_id_ self) && (Posix.child_id_ self =? Posix.child_pid os))
  && match Posix.child os with Posix.Running => true | _ => false end.

(** A handle just made by [create] on a quiet system, with the system it
    runs on. *)
Definition win_started : Win.ProcessImpl * Win.OS :=
  create Win.no_faults (lit "tsc") (lit "C:/bin/tsc") [lit "--watch"] Win.boot.

Definition posix_started : Posix.ProcessImpl * Posix.OS :=
  create Posix.no_faults (lit "tsc") (lit "/bin/tsc") [lit "--watch"] Posix.boot.



(** A code page, made up for the examples, under which the letters a to z
    read as A to Z. *)
Definition upper_case : Bytes -> list Z :=
  map (fun b => if (97 <=? b) && (b <=? 122) then b - 32 else b).

(** A code page that maps every byte to the character of the same number. *)
Definition latin1 : Bytes -> list Z := fun bs => bs.



(** The system refuses to create the pipe. *)
Definition win_no_pipe : Win.Faults :=
  {| Win.CreatePipe_ok := false; Win.SetHandleInformation_ok := true;
     Win.CreateProcessW_ok := true |}.

(** A captured line as it reaches the sink. *)
Definition log_line (proc_name payload : GString) : LogEntry :=
  {| severity := Log; text := fmt_tagged proc_name payload |}.

(** The chunk 'a' LF 'b' CR LF 'c'. *)
Definition a_b_crlf_c : Bytes := [97; LF; 98; CR; LF; 99].

(** The CSI sequence ESC [ 3 1 m. *)
Definition csi_red : Bytes := ESC :: lit "[31m".

(** The system refuses to fork. *)
Definition posix_no_fork : Posix.Faults :=
  {| Posix.pipe_ok := true; Posix.fork_ok := false; Posix.execvp_ok := true |}.


(** The bytes of a chunk that survive the escape scan, line terminators
    included: the chunk loop with the escape branches only. *)
Fixpoint strip (bs : Bytes) : Bytes :=
  match bs with
  | [] => []
  | ch :: rest =>
      if ch =? ESC then
        match rest with
        | [] => []
        | next :: rest' =>
            if next =? LBRACKET then
              (fix csi (l : Bytes) : Bytes :=
                 match l with
                 | [] => []
                 | c :: l' => if is_csi_final c then strip l' else csi l'
                 end) rest'
            else if next =? RBRACKET then
              (fix osc (l : Bytes) : Bytes :=
                 match l with
                 | [] => []
                 | c :: l' =>
                     if c =? BEL then strip l'
                     else if c =? ESC then
                       match l' with
                       | c' :: l'' =>
                           if c' =? BACKSLASH then strip l'' else osc l'
                       | [] => osc l'
                       end
                     else osc l'
                 end) rest'
            else strip rest'
        end
      else ch :: strip rest
  end.

Definition is_terminator (b : Z) : bool := (b =? LF) || (b =? CR).

(** What the chunk loop does with one byte that is not part of an escape
    sequence. *)
Definition feed {St : Type} (put : Z -> St -> St) (fl : St -> St)
           (st : St) (b : Z) : St :=
  if is_terminator b then fl (put NUL st) else put b st.

(** Line assembly over the bytes left by the escape scan: the buffers
    handed to [_flush], each with the NUL appended at its terminator, and
    the bytes still buffered afterwards. *)
Fixpoint assemble (buf l : Bytes) : list Bytes * Bytes :=
  match l with
  | [] => ([], buf)
  | b :: r =>
      if is_terminator b
      then ((buf ++ [NUL]) :: fst (assemble [] r), snd (assemble [] r))
      else assemble (buf ++ [b]) r
  end.

(** The log entries the POSIX [_flush] makes of a buffer. *)
Definition posix_emit (proc_name : GString) (line : Bytes) : list LogEntry :=
  match line with
  | [] => []
  | _ => match append_utf8 line with
         | (OK, s) => [log_line proc_name s]
         | _ => []
         end
  end.

(** The log entries the Windows [_flush] makes of a buffer. *)
Definition win_emit (acp : Bytes -> list Z) (proc_name : GString) (line : Bytes)
  : list LogEntry :=
  match line with
  | [] => []
  | _ => match Win.decode_line acp line with
         | [] => []
         | output => [log_line proc_name output]
         end
  end.

(** Number of LF and CR bytes. *)
Definition count_terminators (bs : Bytes) : nat :=
  List.length (filter is_terminator bs).

(** A byte the chunk loop appends to the line buffer as it is. *)
Definition is_plain (b : Z) : bool := negb (b =? ESC) && negb (is_terminator b).


(** A [Log] entry of the form "[name] payload". *)
Definition tagged_line (proc_name : GString) (e : LogEntry) : Prop :=
  exists payload, e = log_line proc_name payload.


(** The last thing the Windows reader does: the Verbose "closed" entry. *)
Definition win_closed (st : Win.ProcessImpl * Win.OS) : Win.ProcessImpl * Win.OS :=
  (fst st,
   Win.log Verbose (lit "[" ++ Win.proc_name (fst st) ++ lit "] closed") (snd st)).


(** * Properties *)

Ltac case_if :=
  match goal with
  | |- context [if ?c then _ else _] => destruct c eqn:?
  end.

(** ** The escape scan inside one chunk *)

Section ConsumeFacts.
Context {St : Type}.
Variable put : Z -> St -> St.
Variable fl : St -> St.
Local Abbreviation run := (consume put fl).

Lemma consume_csi l st : run (ESC :: LBRACKET :: l) st = run (skip_csi l) st.
Proof.
  cbn -[skip_csi].
  induction l as [|c l IH]; cbn; [reflexivity|].
  destruct (is_csi_final c); [reflexivity | exact IH].
Qed.

Lemma consume_osc l st : run (ESC :: RBRACKET :: l) st = run (skip_osc l) st.
Proof.
  cbn -[skip_osc].
  induction l as [|c l IH]; cbn; [reflexivity|].
  destruct (c =? BEL); [reflexivity|].
  destruct (c =? ESC); [|exact IH].
  destruct l as [|c' l']; [exact IH|].
  destruct (c' =? BACKSLASH); [reflexivity | exact IH].
Qed.

Lemma consume_esc_other next l st :
  (next =? LBRACKET) = false -> (next =? RBRACKET) = false ->
  run (ESC :: next :: l) st = run l st.
Proof. intros H1 H2. cbn. rewrite H1, H2. reflexivity. Qed.
End ConsumeFacts.

Lemma settled_csi l :
  settled (ESC :: LBRACKET :: l) = true ->
  settled (skip_csi l) = true /\ forall rest, skip_csi (l ++ rest) = skip_csi l ++ rest.
Proof.
  cbn -[skip_csi].
  induction l as [|c l IH]; cbn; [discriminate|].
  destruct (is_csi_final c); [intros H; split; [exact H | reflexivity] | exact IH].
Qed.

Lemma settled_osc l :
  settled (ESC :: RBRACKET :: l) = true ->
  settled (skip_osc l) = true /\ forall rest, skip_osc (l ++ rest) = skip_osc l ++ rest.
Proof.
  cbn -[skip_osc].
  induction l as [|c l IH]; cbn; [discriminate|].
  destruct (c =? BEL); [intros H; split; [exact H | reflexivity]|].
  destruct (c =? ESC); [|exact IH].
  destruct l as [|c' l']; [cbn; discriminate|].
  cbn [app].
  destruct (c' =? BACKSLASH); [intros H; split; [exact H | reflexivity] | exact IH].
Qed.

Lemma skip_csi_length l : (List.length (skip_csi l) <= List.length l)%nat.
Proof. induction l as [|c l IH]; cbn; [lia|]. destruct (is_csi_final c); lia. Qed.

Lemma skip_osc_length l : (List.length (skip_osc l) <= List.length l)%nat.
Proof.
  induction l as [|c l IH]; cbn; [lia|].
  destruct (c =? BEL); [lia|].
  destruct (c =? ESC); [|lia].
  destruct l as [|c' l']; [cbn; lia|].
  destruct (c' =? BACKSLASH); cbn in *; lia.
Qed.

Section ConsumeApp.
Context {St : Type}.
Variable put : Z -> St -> St.
Variable fl : St -> St.
Local Abbreviation run := (consume put fl).

Lemma consume_app_bounded n :
  forall pre, (List.length pre <= n)%nat -> settled pre = true ->
  forall rest st, run (pre ++ rest) st = run rest (run pre st).
Proof.
  induction n as [|n IH]; intros pre Hlen Hs rest st.
  - destruct pre; [reflexivity | cbn in Hlen; lia].
  - destruct pre as [|ch pre]; [reflexivity|].
    cbn [List.length] in Hlen.
    destruct (Z.eqb_spec ch ESC) as [->|Hne].
    + destruct pre as [|next l]; [cbn in Hs; discriminate|].
      cbn [List.length] in Hlen.
      destruct (Z.eqb_spec next LBRACKET) as [->|Hb].
      * destruct (settled_csi l Hs) as [Hs' Happ].
        change ((ESC :: LBRACKET :: l) ++ rest) with (ESC :: LBRACKET :: (l ++ rest)).
        rewrite !consume_csi, Happ.
        apply IH; [pose proof (skip_csi_length l); lia | exact Hs'].
      * destruct (Z.eqb_spec next RBRACKET) as [->|Hr].
        -- destruct (settled_osc l Hs) as [Hs' Happ].
           change ((ESC :: RBRACKET :: l) ++ rest) with (ESC :: RBRACKET :: (l ++ rest)).
           rewrite !consume_osc, Happ.
           apply IH; [pose proof (skip_osc_length l); lia | exact Hs'].
        -- apply Z.eqb_neq in Hb, Hr.
           change ((ESC :: next :: l) ++ rest) with (ESC :: next :: (l ++ rest)).
           rewrite !consume_esc_other by assumption.
           apply IH; [lia|].
           cbn in Hs. rewrite Hb, Hr in Hs. exact Hs.
    + apply Z.eqb_neq in Hne.
      cbn. cbn in Hs. rewrite Hne in *.
      destruct ((ch =? LF) || (ch =? CR)); apply IH; (lia || assumption).
Qed.

Lemma consume_app pre rest st :
  settled pre = true -> run (pre ++ rest) st = run rest (run pre st).
Proof. intros Hs. exact (consume_app_bounded (List.length pre) pre (le_n _) Hs rest st). Qed.
End ConsumeApp.

Lemma skip_csi_wf params final post :
  Forall (fun c => is_csi_final c = false) params -> is_csi_final final = true ->
  skip_csi (params ++ final :: post) = post.
Proof.
  intros Hp Hf. induction Hp as [|c params Hc _ IH]; cbn.
  - rewrite Hf. reflexivity.
  - rewrite Hc. exact IH.
Qed.





Lemma skip_osc_wf payload term post :
  osc_payload payload = true -> term = [BEL] \/ term = [ESC; BACKSLASH] ->
  skip_osc (payload ++ term ++ post) = post.
Proof.
  intros Hp Ht. induction payload as [|c q IH].
  - destruct Ht as [-> | ->]; reflexivity.
  - cbn [osc_payload] in Hp.
    apply andb_true_iff in Hp as [H1 H3]. apply andb_true_iff in H1 as [H1 H2].
    apply negb_true_iff in H1.
    cbn [List.app skip_osc]. rewrite H1.
    destruct (c =? ESC); [|exact (IH H3)].
    destruct q as [|c' q].
    + destruct Ht as [-> | ->]; reflexivity.
    + cbn [andb negb] in H2. apply negb_true_iff in H2.
      cbn [List.app]. rewrite H2. exact (IH H3).
Qed.

Lemma settled_csi_wf params final post :
  Forall (fun c => is_csi_final c = false) params -> is_csi_final final = true ->
  settled (ESC :: LBRACKET :: params ++ final :: post) = settled post.
Proof.
  intros Hp Hf. cbn -[is_csi_final].
  induction Hp as [|c params Hc _ IH]; cbn -[is_csi_final].
  - rewrite Hf. reflexivity.
  - rewrite Hc. exact IH.
Qed.

Lemma settled_osc_wf payload term post :
  osc_payload payload = true -> term = [BEL] \/ term = [ESC; BACKSLASH] ->
  settled (ESC :: RBRACKET :: payload ++ term ++ post) = settled post.
Proof.
  intros Hp Ht. cbn.
  induction payload as [|c q IH].
  - destruct Ht as [-> | ->]; reflexivity.
  - cbn [osc_payload] in Hp.
    apply andb_true_iff in Hp as [H1 H3]. apply andb_true_iff in H1 as [H1 H2].
    apply negb_true_iff in H1.
    cbn [List.app]. rewrite H1.
    destruct (c =? ESC); [|exact (IH H3)].
    destruct q as [|c' q].
    + destruct Ht as [-> | ->]; reflexivity.
    + cbn [andb negb] in H2. apply negb_true_iff in H2.
      cbn [List.app]. rewrite H2. exact (IH H3).
Qed.

Lemma well_formed_settled seq : well_formed seq -> settled seq = true.
Proof.
  intros [(params & final & -> & Hp & Hf) | (payload & term & -> & Hp & Ht)].
  - rewrite settled_csi_wf by assumption. reflexivity.
  - rewrite <- (app_nil_r term), settled_osc_wf by assumption. reflexivity.
Qed.

Section SequenceFacts.
Context {St : Type}.
Variable put : Z -> St -> St.
Variable fl : St -> St.
Local Abbreviation run := (consume put fl).

(** A whole well-formed sequence leaves the pump state as it was. *)
Lemma consume_well_formed seq st : well_formed seq -> run seq st = st.
Proof.
  intros [(params & final & -> & Hp & Hf) | (payload & term & -> & Hp & Ht)].
  - rewrite consume_csi, skip_csi_wf by assumption. reflexivity.
  - rewrite consume_osc, <- (app_nil_r term), skip_osc_wf by assumption.
    reflexivity.
Qed.

End SequenceFacts.

(** ** Lifecycle: Windows *)

Lemma win_is_running_os self os : snd (Win._is_running self os) = os.
Proof.
  unfold Win._is_running.
  destruct (Win.is_closing self || (Win.pi_hProcess self =? Win.nullptr));
    [reflexivity|].
  destruct (Win.GetExitCodeProcess (Win.pi_hProcess self) os) as [c|]; [|reflexivity].
  destruct (negb (c =? Win.STILL_ACTIVE)); reflexivity.
Qed.

Lemma win_not_running_step self os os' :
  fst (Win._is_running self os) = false -> Win.os_step os os' ->
  fst (Win._is_running self os') = false.
Proof.
  intros Hr Hstep. destruct Hstep as [os code Halive].
  revert Hr. unfold Win._is_running, Win.GetExitCodeProcess, Win.handle_open. cbn.
  destruct (Win.is_closing self || (Win.pi_hProcess self =? Win.nullptr));
    [reflexivity|].
  destruct (existsb (Z.eqb (Win.pi_hProcess self)) (Win.open_handles os)
            && (Win.pi_hProcess self =? Win.child_hProcess os)); [|reflexivity].
  rewrite Halive. cbn. discriminate.
Qed.

Lemma win_not_running_steps self os os' :
  Win.os_steps os os' -> fst (Win._is_running self os) = false ->
  fst (Win._is_running self os') = false.
Proof.
  induction 1 as [|os1 os2 os3 Hstep _ IH]; [trivial|].
  intros Hr. apply IH. exact (win_not_running_step _ _ _ Hr Hstep).
Qed.

Lemma win_closing_not_running self os :
  Win.is_closing self = true -> Win._is_running self os = (false, os).
Proof. intros H. unfold Win._is_running. rewrite H. reflexivity. Qed.

Lemma win_stop_unfold self os :
  stop self os
  = if fst (Win._is_running self os) then Win.on_stop self os else (self, os).
Proof.
  unfold stop, is_running. cbn [_is_running on_stop Win.ops].
  destruct (Win._is_running self os) as [r w] eqn:E.
  pose proof (win_is_running_os self os) as Hw. rewrite E in Hw. cbn in Hw. subst w.
  destruct r; reflexivity.
Qed.

Lemma win_stop_when_not_running self os :
  fst (Win._is_running self os) = false -> stop self os = (self, os).
Proof. intros H. rewrite win_stop_unfold, H. reflexivity. Qed.

Lemma win_idempotent self os :
  stop_is_idempotent Win.os_steps win_kills_joins self os.
Proof.
  unfold stop_is_idempotent, stop_noop, is_running.
  cbn [_is_running Win.ops].
  split.
  - intros Hr. rewrite win_stop_when_not_running by exact Hr. split; reflexivity.
  - intros w2 Hsteps.
    assert (Hnr : fst (Win._is_running (fst (stop self os)) w2) = false).
    { rewrite win_stop_unfold in *.
      destruct (fst (Win._is_running self os)) eqn:Hr.
      - rewrite win_closing_not_running; reflexivity.
      - exact (win_not_running_steps _ _ _ Hsteps Hr). }
    split; [exact Hnr|].
    rewrite win_stop_when_not_running by exact Hnr. split; reflexivity.
Qed.


Lemma win_steps_frame os os' :
  Win.os_steps os os' ->
  Win.open_handles os' = Win.open_handles os
  /\ Win.calls os' = Win.calls os
  /\ Win.child_hProcess os' = Win.child_hProcess os
  /\ Win.child_hStdOutput os' = Win.child_hStdOutput os
  /\ Win.child_hStdError os' = Win.child_hStdError os
  /\ (Win.child os = Win.NoChild -> Win.child os' = Win.NoChild).
Proof.
  induction 1 as [os | os1 os2 os3 Hstep _ IH].
  - repeat split; trivial.
  - destruct Hstep as [os code Halive]. cbn in IH.
    destruct IH as (H1 & H2 & H3 & H4 & H5 & _).
    repeat split; trivial. congruence.
Qed.


Lemma win_on_stop_handles self os :
  Win.open_handles (snd (Win.on_stop self os))
  = remove Z.eq_dec (Win.rd_pipe self)
      (remove Z.eq_dec (Win.pi_hThread self)
         (remove Z.eq_dec (Win.pi_hProcess self) (Win.open_handles os))).
Proof.
  unfold Win.on_stop, Win.TerminateProcess. cbn.
  case_if; [destruct (Win.child os)|]; reflexivity.
Qed.


Lemma win_on_start_ok flt n p a self0 os0 self os1 :
  Win.on_start flt n p a self0 os0 = (OK, self, os1) ->
  Win.rd_pipe self = Z.pos (Win.next_handle os0)
  /\ Win.si_hStdOutput self = Z.pos (Win.next_handle os0 + 1)
  /\ Win.si_hStdError self = Z.pos (Win.next_handle os0 + 1)
  /\ Win.thread self = Started
  /\ Win.is_closing self = Win.is_closing self0
  /\ Win.child_hStdOutput os1 = Z.pos (Win.next_handle os0 + 1)
  /\ Win.child_hStdError os1 = Z.pos (Win.next_handle os0 + 1)
  /\ ~ In (Z.pos (Win.next_handle os0 + 1)) (Win.open_handles os1).
Proof.
  unfold Win.on_start, Win.CreatePipe, Win.SetHandleInformation, Win.CreateProcessW.
  destruct (Win.CreatePipe_ok flt); [|discriminate].
  destruct (Win.SetHandleInformation_ok flt); [|discriminate].
  cbn. destruct (Win.CreateProcessW_ok flt); [|discriminate].
  cbn. intros H. injection H as <- <-. cbn.
  repeat split. apply remove_In.
Qed.

(** ** Lifecycle: POSIX and null *)

Lemma fd_lookup_close_same fd t : Posix.fd_lookup fd (Posix.fd_close fd t) = None.
Proof.
  induction t as [|[k o] t IH]; [reflexivity|].
  cbn. destruct (k =? fd) eqn:E; cbn; [exact IH|]. rewrite E. exact IH.
Qed.


Lemma fd_open_close_same fd t : Posix.fd_open fd (Posix.fd_close fd t) = false.
Proof. unfold Posix.fd_open. rewrite fd_lookup_close_same. reflexivity. Qed.


Lemma posix_steps_frame os os' :
  Posix.os_steps os os' ->
  Posix.fds os' = Posix.fds os
  /\ Posix.calls os' = Posix.calls os
  /\ Posix.child_pid os' = Posix.child_pid os
  /\ Posix.child_fds os' = Posix.child_fds os.
Proof.
  induction 1 as [os | os1 os2 os3 Hstep _ IH].
  - repeat split.
  - destruct Hstep as [os status Hrun | os Hrun Hexec]; exact IH.
Qed.




Lemma posix_waitpid_calls pid nohang os :
  Posix.calls (snd (Posix.waitpid pid nohang os))
  = Posix.calls os ++ [Posix.waitpid_call pid nohang].
Proof.
  unfold Posix.waitpid.
  destruct ((0 <? pid) && (pid =? Posix.child_pid os)); [|reflexivity].
  destruct (Posix.child os); try reflexivity.
  destruct nohang; reflexivity.
Qed.

Lemma posix_is_running_quiet self os :
  posix_kills_joins (snd (Posix._is_running self os)) = posix_kills_joins os.
Proof.
  unfold Posix._is_running, posix_kills_joins.
  destruct (Posix.is_closing self || (Posix.child_id_ self <? 0)); [reflexivity|].
  pose proof (posix_waitpid_calls (Posix.child_id_ self) true os) as Hc.
  destruct (Posix.waitpid (Posix.child_id_ self) true os) as [[ret st] os'].
  cbn in *. rewrite Hc, filter_app. cbn. rewrite app_nil_r. reflexivity.
Qed.

Lemma posix_is_running_live self os :
  fst (Posix._is_running self os) = posix_live self os.
Proof.
  unfold Posix._is_running, posix_live, Posix.waitpid.
  destruct (Posix.is_closing self || (Posix.child_id_ self <? 0)); [reflexivity|].
  destruct (0 <? Posix.child_id_ self) eqn:Hpos; [|reflexivity].
  destruct (Posix.child_id_ self =? Posix.child_pid os); [|reflexivity].
  cbn. destruct (Posix.child os); cbn; try reflexivity.
  apply Z.ltb_lt in Hpos. apply Z.eqb_neq. lia.
Qed.

Lemma posix_live_after_query self os :
  posix_live self os = false ->
  posix_live self (snd (Posix._is_running self os)) = false.
Proof.
  unfold Posix._is_running, posix_live, Posix.waitpid.
  destruct (Posix.is_closing self || (Posix.child_id_ self <? 0)); [reflexivity|].
  destruct ((0 <? Posix.child_id_ self)
            && (Posix.child_id_ self =? Posix.child_pid os)) eqn:Hc;
    cbn; [|rewrite Hc; reflexivity].
  destruct (Posix.child os) eqn:Hch; cbn; rewrite ?Hc, ?Hch; cbn;
    trivial; rewrite andb_false_r; reflexivity.
Qed.

Lemma posix_live_step self os os' :
  posix_live self os = false -> Posix.os_step os os' -> posix_live self os' = false.
Proof.
  intros Hl Hstep.
  destruct Hstep as [os status Hrun | os Hrun Hexec];
    revert Hl; unfold posix_live; cbn; rewrite Hrun;
    rewrite !andb_true_r, andb_false_r; trivial.
Qed.

Lemma posix_live_steps self os os' :
  Posix.os_steps os os' -> posix_live self os = false -> posix_live self os' = false.
Proof.
  induction 1 as [|os1 os2 os3 Hstep _ IH]; [trivial|].
  intros Hl. apply IH. exact (posix_live_step _ _ _ Hl Hstep).
Qed.

Lemma posix_stop_unfold self os :
  stop self os = if posix_live self os
                 then Posix.on_stop self (snd (Posix._is_running self os))
                 else (self, snd (Posix._is_running self os)).
Proof.
  unfold stop, is_running. cbn [_is_running on_stop Posix.ops].
  rewrite <- posix_is_running_live.
  destruct (Posix._is_running self os) as [r w]. destruct r; reflexivity.
Qed.

Lemma posix_on_stop_closing self os :
  Posix.is_closing (fst (Posix.on_stop self os)) = true.
Proof.
  unfold Posix.on_stop.
  destruct (Posix.kill _ _ _) as [ret os1]. reflexivity.
Qed.

Lemma posix_closing_not_live self os :
  Posix.is_closing self = true -> posix_live self os = false.
Proof. intros H. unfold posix_live. rewrite H. reflexivity. Qed.

Lemma posix_idempotent self os :
  stop_is_idempotent Posix.os_steps posix_kills_joins self os.
Proof.
  assert (Hnoop : forall s w, posix_live s w = false -> stop_noop posix_kills_joins s w).
  { intros s w Hl. unfold stop_noop. rewrite posix_stop_unfold, Hl.
    split; [reflexivity | apply posix_is_running_quiet]. }
  unfold stop_is_idempotent, is_running. cbn [_is_running Posix.ops].
  split.
  - rewrite posix_is_running_live. apply Hnoop.
  - intros w2 Hsteps.
    assert (Hl : posix_live (fst (stop self os)) w2 = false).
    { rewrite posix_stop_unfold in *.
      destruct (posix_live self os) eqn:Hr.
      - apply posix_closing_not_live, posix_on_stop_closing.
      - cbn [fst snd] in *.
        exact (posix_live_steps _ _ _ Hsteps (posix_live_after_query _ _ Hr)). }
    split; [rewrite posix_is_running_live; exact Hl | exact (Hnoop _ _ Hl)].
Qed.

Lemma null_idempotent self w :
  stop_is_idempotent (ops := Null.ops) eq (fun _ => 0%nat) self w.
Proof.
  unfold stop_is_idempotent, stop_noop, stop, is_running. cbn.
  repeat split.
Qed.

(** ** Command-line quoting *)

Lemma needs_quote_table c : Quote.needs_quote c = true <-> In c Quote.quote_table.
Proof.
  unfold Quote.needs_quote. cbn. rewrite !orb_true_iff, !Z.eqb_eq.
  intuition (subst; auto; try lia).
Qed.

Lemma quote_loop_spec p_text rest :
  Quote.quote_loop p_text rest
  = if existsb Quote.needs_quote rest then DQUOTE :: p_text ++ [DQUOTE] else p_text.
Proof.
  induction rest as [|c rest IH]; [reflexivity|].
  cbn. destruct (Quote.needs_quote c); [reflexivity | exact IH].
Qed.

(** C8. [_quote_command_line_argument] wraps the whole argument in double
    quotes exactly when it contains one of the characters
    space & ( ) [ ] { } ^ = ; ! ' + , ` ~ and otherwise returns it
    unchanged; ["a b"] is rendered quoted, ["ab"] unquoted, and the command
    line joins the quoted path and arguments with single spaces. *)
Theorem quote_iff_special_character (p_text : GString) :
  ((exists c, In c p_text /\ In c Quote.quote_table) ->
   Quote._quote_command_line_argument p_text = DQUOTE :: p_text ++ [DQUOTE])
  /\ ((forall c, In c p_text -> ~ In c Quote.quote_table) ->
      Quote._quote_command_line_argument p_text = p_text)
  /\ (Quote._quote_command_line_argument p_text = DQUOTE :: p_text ++ [DQUOTE]
      \/ Quote._quote_command_line_argument p_text = p_text)
  /\ Quote._quote_command_line_argument (lit "a b") = DQUOTE :: lit "a b" ++ [DQUOTE]
  /\ Quote._quote_command_line_argument (lit "ab") = lit "ab"
  /\ Quote.command_line (lit "C:/bin/tsc") [lit "a b"; lit "ab"]
     = lit "C:\bin\tsc " ++ DQUOTE :: lit "a b" ++ DQUOTE :: lit " ab".
Proof.
  unfold Quote._quote_command_line_argument.
  rewrite quote_loop_spec.
  repeat split; try reflexivity.
  - intros (c & Hin & Htab).
    replace (existsb Quote.needs_quote p_text) with true; [reflexivity|].
    symmetry. apply existsb_exists. exists c. split; [exact Hin|].
    apply needs_quote_table. exact Htab.
  - intros Hnone.
    destruct (existsb Quote.needs_quote p_text) eqn:E; [|reflexivity].
    apply existsb_exists in E as (c & Hin & Hq).
    apply needs_quote_table in Hq. destruct (Hnone c Hin Hq).
  - destruct (existsb Quote.needs_quote p_text); [left | right]; reflexivity.
Qed.

Lemma quote_iff_special_character_witness :
  ((exists c, In c (lit "x=1") /\ In c Quote.quote_table)
   /\ Quote._quote_command_line_argument (lit "x=1") = DQUOTE :: lit "x=1" ++ [DQUOTE])
  /\ ((forall c, In c (lit "x1") -> ~ In c Quote.quote_table)
      /\ Quote._quote_command_line_argument (lit "x1") = lit "x1").
Proof.
  assert (H : exists c, In c (lit "x=1") /\ In c Quote.quote_table).
  { exists 61. split; cbn; tauto. }
  assert (H' : forall c, In c (lit "x1") -> ~ In c Quote.quote_table).
  { intros c Hc Ht. apply needs_quote_table in Ht.
    cbn in Hc. destruct Hc as [<- | [<- | []]]; discriminate Ht. }
  split; (split; [assumption|]).
  - exact (proj1 (quote_iff_special_character (lit "x=1")) H).
  - exact (proj1 (proj2 (quote_iff_special_character (lit "x1"))) H').
Defined.

(** ** Line assembly *)

Lemma c_str_app_nul w : c_str (w ++ [NUL]) = c_str w.
Proof.
  induction w as [|b w IH]; [reflexivity|].
  cbn. destruct (b =? NUL); [reflexivity | rewrite IH; reflexivity].
Qed.

(** C3. On POSIX the chunk 'a' LF 'b' CR LF 'c' makes three log entries:
    the lines "a" and "b" and then an empty line for the LF of the CR LF
    pair, whose buffer holds the appended NUL when [_flush] tests it;
    "c" stays buffered. *)
Theorem posix_crlf_emits_empty_line (self : Posix.ProcessImpl) (os : Posix.OS) :
  let st := Posix.consume_chunk a_b_crlf_c (Posix.set_rd_line [] self, os) in
  Posix.rd_line (fst st) = lit "c"
  /\ Posix.sink (snd st)
     = Posix.sink os ++ [log_line (Posix.proc_name self) (lit "a");
                         log_line (Posix.proc_name self) (lit "b");
                         log_line (Posix.proc_name self) []].
Proof.
  cbn. unfold JSB_PROCESS_LOG. rewrite <- !app_assoc. split; reflexivity.
Qed.

(** The same chunk on Windows, under a code page that maps these bytes to
    themselves: only "a" and "b" are logged. *)
Lemma win_crlf_no_empty_line (self : Win.ProcessImpl) (os : Win.OS) :
  let st := Win.consume_chunk (fun bs => bs) a_b_crlf_c (Win.set_rd_line [] self, os) in
  Win.rd_line (fst st) = lit "c"
  /\ Win.sink (snd st)
     = Win.sink os ++ [log_line (Win.proc_name self) (lit "a");
                       log_line (Win.proc_name self) (lit "b")].
Proof.
  cbn. unfold JSB_PROCESS_LOG. rewrite <- !app_assoc. split; reflexivity.
Qed.

Lemma win_decode_nul acp : c_str (acp [NUL]) = [] -> Win.decode_line acp [NUL] = [].
Proof.
  intros H. unfold Win.decode_line.
  destruct (0 <? Z.of_nat (List.length (acp [NUL]))); [|reflexivity].
  destruct (acp [NUL] ++ [NUL]) eqn:E; [reflexivity|].
  rewrite <- E. unfold String_of_wide. rewrite c_str_app_nul. exact H.
Qed.

(** C10. The Windows [_flush] logs the decoded line only when the decoded
    text is not empty: a buffer that decodes to the empty text adds no log
    entry, any other adds exactly the tagged line; in particular a blank
    line, whose buffer is the appended NUL alone, logs nothing. *)
Theorem win_flush_logs_nonempty_only
        (acp : Bytes -> list Z) (self : Win.ProcessImpl) (os : Win.OS) :
  (Win.decode_line acp (Win.rd_line self) = [] ->
   Win.sink (snd (Win._flush acp (self, os))) = Win.sink os)
  /\ (Win.rd_line self <> [] -> Win.decode_line acp (Win.rd_line self) <> [] ->
      Win.sink (snd (Win._flush acp (self, os)))
      = Win.sink os ++ [log_line (Win.proc_name self)
                                 (Win.decode_line acp (Win.rd_line self))])
  /\ (c_str (acp [NUL]) = [] ->
      forall t, t = LF \/ t = CR ->
        Win.sink (snd (Win.consume_chunk acp [t] (Win.set_rd_line [] self, os)))
        = Win.sink os).
Proof.
  repeat split.
  - intros Hout. unfold Win._flush.
    destruct (Win.rd_line self); [reflexivity|]. rewrite Hout. reflexivity.
  - intros Hline Hout. unfold Win._flush.
    destruct (Win.rd_line self) as [|b l]; [contradiction|].
    destruct (Win.decode_line acp (b :: l)); [contradiction | reflexivity].
  - intros Hnul t [-> | ->]; cbn; rewrite (win_decode_nul acp Hnul); reflexivity.
Qed.

Lemma win_flush_logs_nonempty_only_witness :
  let latin1 := fun bs : Bytes => bs in
  let blank := Win.set_rd_line [NUL] Win.new_ProcessImpl in
  let hello := Win.set_rd_line (lit "hi" ++ [NUL]) Win.new_ProcessImpl in
  (Win.decode_line latin1 (Win.rd_line blank) = []
   /\ Win.sink (snd (Win._flush latin1 (blank, Win.boot))) = [])
  /\ (Win.rd_line hello <> [] /\ Win.decode_line latin1 (Win.rd_line hello) <> []
      /\ Win.sink (snd (Win._flush latin1 (hello, Win.boot)))
         = [log_line [] (lit "hi")])
  /\ (c_str (latin1 [NUL]) = []
      /\ Win.sink (snd (Win.consume_chunk latin1 [LF]
                          (Win.set_rd_line [] Win.new_ProcessImpl, Win.boot))) = []).
Proof.
  cbv zeta.
  assert (H1 : Win.decode_line (fun bs : Bytes => bs)
                 (Win.rd_line (Win.set_rd_line [NUL] Win.new_ProcessImpl)) = [])
    by reflexivity.
  assert (H2 : Win.rd_line (Win.set_rd_line (lit "hi" ++ [NUL]) Win.new_ProcessImpl) <> [])
    by discriminate.
  assert (H3 : Win.decode_line (fun bs : Bytes => bs)
                 (Win.rd_line (Win.set_rd_line (lit "hi" ++ [NUL]) Win.new_ProcessImpl))
               <> []) by discriminate.
  assert (H4 : c_str ((fun bs : Bytes => bs) [NUL]) = []) by reflexivity.
  split; [split; [exact H1|]|split; [split; [exact H2 | split; [exact H3|]]|split; [exact H4|]]].
  - exact (proj1 (win_flush_logs_nonempty_only _ _ Win.boot) H1).
  - exact (proj1 (proj2 (win_flush_logs_nonempty_only _ _ Win.boot)) H2 H3).
  - exact (proj2 (proj2 (win_flush_logs_nonempty_only _ Win.new_ProcessImpl Win.boot))
             H4 LF (or_introl eq_refl)).
Defined.

(** ** Escape sequences and chunk boundaries *)

Lemma csi_red_well_formed : well_formed csi_red.
Proof.
  left. exists (lit "31"), 109. repeat split.
  repeat constructor.
Qed.

(** Bytes without any ESC leave the scan settled. *)
Lemma settled_no_esc bs : Forall (fun b => b <> ESC) bs -> settled bs = true.
Proof.
  induction 1 as [|b bs Hb _ IH]; [reflexivity|].
  cbn -[ESC]. apply Z.eqb_neq in Hb. rewrite Hb. exact IH.
Qed.

(** C4, as stated, fails: in the chunk ESC ESC [ 3 1 m x the first ESC
    swallows the second as a two-byte sequence, and the bytes [ 3 1 m of
    the well-formed CSI sequence that follows reach the line buffer. *)
Lemma csi_after_lone_esc_reaches_line :
  well_formed csi_red
  /\ Posix.rd_line
       (fst (Posix.consume_chunk ([ESC] ++ csi_red ++ lit "x")
                                 (Posix.new_ProcessImpl, Posix.boot)))
     = lit "[31mx".
Proof. split; [exact csi_red_well_formed | reflexivity]. Qed.

(** C4 (amended). Within one chunk, a well-formed CSI or OSC sequence that
    starts where the scan of the bytes before it has settled (they do not
    end in a lone ESC or inside an unterminated CSI or OSC) is dropped
    whole, terminator included: the chunk is processed as the bytes before
    it followed by the bytes after it, and as the chunk without it. *)
Theorem escape_sequence_dropped_in_chunk
        {St : Type} (put : Z -> St -> St) (fl : St -> St)
        (pre seq post : Bytes) (st : St) :
  settled pre = true -> well_formed seq ->
  consume put fl (pre ++ seq ++ post) st = consume put fl post (consume put fl pre st)
  /\ consume put fl (pre ++ seq ++ post) st = consume put fl (pre ++ post) st.
Proof.
  intros Hpre Hseq.
  assert (H : consume put fl (pre ++ seq ++ post) st
              = consume put fl post (consume put fl pre st)).
  { rewrite (consume_app put fl pre (seq ++ post) st Hpre).
    rewrite (consume_app put fl seq post _ (well_formed_settled seq Hseq)).
    rewrite (consume_well_formed put fl seq _ Hseq). reflexivity. }
  split; [exact H|].
  rewrite H. symmetry. apply consume_app. exact Hpre.
Qed.

Lemma escape_sequence_dropped_in_chunk_witness :
  settled (lit "ab") = true /\ well_formed csi_red
  /\ Posix.consume_chunk (lit "ab" ++ csi_red ++ lit "c")
                         (Posix.new_ProcessImpl, Posix.boot)
     = Posix.consume_chunk (lit "abc") (Posix.new_ProcessImpl, Posix.boot).
Proof.
  split; [reflexivity|]. split; [exact csi_red_well_formed|].
  exact (proj2 (escape_sequence_dropped_in_chunk
                  Posix._append_char_to_line Posix._flush
                  (lit "ab") csi_red (lit "c")
                  (Posix.new_ProcessImpl, Posix.boot)
                  eq_refl csi_red_well_formed)).
Defined.




(** ** Lifecycle claims *)

(** C7. [stop] is idempotent on every implementation: called on a handle
    that is not running it leaves the handle as it is and attempts no kill
    and no join; and once a [stop] has returned — whatever it did, and
    whatever the operating system does afterwards — [is_running] reports
    false and a further [stop] again leaves the handle as it is and
    attempts no kill and no join. *)
Theorem stop_idempotent :
  (forall self os, stop_is_idempotent Win.os_steps win_kills_joins self os)
  /\ (forall self os, stop_is_idempotent Posix.os_steps posix_kills_joins self os)
  /\ (forall self w,
        stop_is_idempotent (ops := Null.ops) eq (fun _ => 0%nat) self w).
Proof.
  split; [exact win_idempotent|].
  split; [exact posix_idempotent | exact null_idempotent].
Qed.

Lemma stop_idempotent_witness :
  (Posix.os_steps (snd (stop (fst posix_started) (snd posix_started)))
                  (snd (stop (fst posix_started) (snd posix_started)))
   /\ fst (is_running (fst (stop (fst posix_started) (snd posix_started)))
                      (snd (stop (fst posix_started) (snd posix_started)))) = false
   /\ stop_noop posix_kills_joins
                (fst (stop (fst posix_started) (snd posix_started)))
                (snd (stop (fst posix_started) (snd posix_started))))
  /\ (fst (is_running (fst (create win_no_pipe (lit "tsc") (lit "C:/bin/tsc") [] Win.boot))
                      (snd (create win_no_pipe (lit "tsc") (lit "C:/bin/tsc") [] Win.boot)))
      = false
      /\ stop_noop win_kills_joins
                   (fst (create win_no_pipe (lit "tsc") (lit "C:/bin/tsc") [] Win.boot))
                   (snd (create win_no_pipe (lit "tsc") (lit "C:/bin/tsc") [] Win.boot))).
Proof.
  split.
  - split; [apply Posix.os_steps_refl|].
    exact (proj2 (proj1 (proj2 stop_idempotent) (fst posix_started) (snd posix_started))
                 _ (Posix.os_steps_refl _)).
  - assert (H : fst (is_running
                       (fst (create win_no_pipe (lit "tsc") (lit "C:/bin/tsc") [] Win.boot))
                       (snd (create win_no_pipe (lit "tsc") (lit "C:/bin/tsc") [] Win.boot)))
                = false) by reflexivity.
    split; [exact H|].
    exact (proj1 (proj1 stop_idempotent _ _) H).
Defined.

(** C2, as stated, fails: [on_start] does return [ERR_CANT_FORK] when the
    pipe cannot be created, but [start] is [void]: what it hands back is the
    same on failure and on success, so no reading of it tells them apart. *)
Lemma start_hands_back_no_error :
  fst (fst (Win.on_start win_no_pipe (lit "tsc") (lit "C:/bin/tsc") []
                         Win.new_ProcessImpl Win.boot))
  = ERR_CANT_FORK
  /\ ~ exists surface : unit -> Error,
         surface (fst (start win_no_pipe (lit "tsc") (lit "C:/bin/tsc") []
                             Win.new_ProcessImpl Win.boot)) <> OK
         /\ surface (fst (start Win.no_faults (lit "tsc") (lit "C:/bin/tsc") []
                                Win.new_ProcessImpl Win.boot)) = OK.
Proof.
  split; [reflexivity|].
  intros (surface & Hfail & Hok). apply Hfail. exact Hok.
Qed.

(** C2 (amended). On every spawn failure [on_start] returns a non-[OK]
    error code at once — [ERR_CANT_FORK] on Windows for a failed pipe
    creation, handle marking or process creation; on POSIX
    [ERR_CANT_CREATE] for a failed pipe and [ERR_CANT_FORK] for a failed
    fork — and it returns [OK] when nothing fails.  [start] drops that
    code and [create] returns the handle all the same; after a failure
    that handle reports not running and [stop] on it does nothing. *)
Theorem spawn_error_stays_in_on_start :
  (forall flt n p a os,
      fst (fst (Win.on_start flt n p a Win.new_ProcessImpl os))
      = (if Win.CreatePipe_ok flt && Win.SetHandleInformation_ok flt
            && Win.CreateProcessW_ok flt
         then OK else ERR_CANT_FORK)
      /\ (Win.CreatePipe_ok flt && Win.SetHandleInformation_ok flt
          && Win.CreateProcessW_ok flt = false ->
          fst (is_running (fst (create flt n p a os)) (snd (create flt n p a os)))
          = false
          /\ stop (fst (create flt n p a os)) (snd (create flt n p a os))
             = create flt n p a os))
  /\ (forall flt n p a os,
         fst (fst (Posix.on_start flt n p a Posix.new_ProcessImpl os))
         = (if Posix.pipe_ok flt
            then if Posix.fork_ok flt then OK else ERR_CANT_FORK
            else ERR_CANT_CREATE)
         /\ (Posix.pipe_ok flt && Posix.fork_ok flt = false ->
             fst (is_running (fst (create flt n p a os)) (snd (create flt n p a os)))
             = false
             /\ stop (fst (create flt n p a os)) (snd (create flt n p a os))
                = create flt n p a os)).
Proof.
  split; intros flt n p a os.
  - assert (Hnr : Win.CreatePipe_ok flt && Win.SetHandleInformation_ok flt
                  && Win.CreateProcessW_ok flt = false ->
                  fst (Win._is_running (fst (create flt n p a os))
                                       (snd (create flt n p a os))) = false).
    { unfold create, start. cbn [on_start make_impl Win.ops].
      unfold Win.on_start, Win.CreatePipe, Win.SetHandleInformation,
        Win.CreateProcessW.
      destruct (Win.CreatePipe_ok flt); [|reflexivity].
      destruct (Win.SetHandleInformation_ok flt); [|reflexivity].
      destruct (Win.CreateProcessW_ok flt); [discriminate | reflexivity]. }
    split.
    + unfold Win.on_start, Win.CreatePipe, Win.SetHandleInformation,
        Win.CreateProcessW.
      destruct (Win.CreatePipe_ok flt); [|reflexivity].
      destruct (Win.SetHandleInformation_ok flt); [|reflexivity].
      destruct (Win.CreateProcessW_ok flt); reflexivity.
    + intros Hfail. split; [exact (Hnr Hfail)|].
      rewrite win_stop_when_not_running by exact (Hnr Hfail).
      symmetry. apply surjective_pairing.
  - assert (Hnr : Posix.pipe_ok flt && Posix.fork_ok flt = false ->
                  stop (fst (create flt n p a os)) (snd (create flt n p a os))
                  = create flt n p a os
                  /\ fst (Posix._is_running (fst (create flt n p a os))
                                            (snd (create flt n p a os))) = false).
    { unfold create, start, stop, is_running.
      cbn [on_start make_impl _is_running on_stop Posix.ops].
      unfold Posix.on_start, Posix.pipe, Posix.fork.
      destruct (Posix.pipe_ok flt); [|split; reflexivity].
      destruct (Posix.fork_ok flt); [discriminate | split; reflexivity]. }
    split.
    + unfold Posix.on_start, Posix.pipe, Posix.fork.
      destruct (Posix.pipe_ok flt); [|reflexivity].
      destruct (Posix.fork_ok flt); reflexivity.
    + intros Hfail. destruct (Hnr Hfail) as [Hstop Hrun].
      split; [exact Hrun | exact Hstop].
Qed.

Lemma spawn_error_stays_in_on_start_witness :
  (Win.CreatePipe_ok win_no_pipe && Win.SetHandleInformation_ok win_no_pipe
   && Win.CreateProcessW_ok win_no_pipe = false
   /\ fst (is_running (fst (create win_no_pipe (lit "tsc") (lit "C:/bin/tsc") [] Win.boot))
                      (snd (create win_no_pipe (lit "tsc") (lit "C:/bin/tsc") [] Win.boot)))
      = false)
  /\ (Posix.pipe_ok posix_no_fork && Posix.fork_ok posix_no_fork = false
      /\ fst (is_running (fst (create posix_no_fork (lit "tsc") (lit "/bin/tsc") [] Posix.boot))
                         (snd (create posix_no_fork (lit "tsc") (lit "/bin/tsc") [] Posix.boot)))
         = false).
Proof.
  split; (split; [reflexivity|]).
  - exact (proj1 (proj2 (proj1 spawn_error_stays_in_on_start
                               win_no_pipe (lit "tsc") (lit "C:/bin/tsc") [] Win.boot)
                        eq_refl)).
  - exact (proj1 (proj2 (proj2 spawn_error_stays_in_on_start
                               posix_no_fork (lit "tsc") (lit "/bin/tsc") [] Posix.boot)
                        eq_refl)).
Defined.

(** C9. Two failure paths of [on_start] return with the pipe just made
    still open: on Windows when [SetHandleInformation] fails both pipe
    handles stay open, and on POSIX when [fork] fails both descriptors stay
    open and stay recorded in the handle.  The path of a failed
    [CreateProcessW] does close both ends. *)
Theorem failed_start_leaves_pipe_open (n p : GString) (a : list GString) :
  (forall self os b,
      let flt := {| Win.CreatePipe_ok := true; Win.SetHandleInformation_ok := false;
                    Win.CreateProcessW_ok := b |} in
      fst (fst (Win.on_start flt n p a self os)) = ERR_CANT_FORK
      /\ Win.open_handles (snd (Win.on_start flt n p a self os))
         = Win.open_handles os ++ [Z.pos (Win.next_handle os);
                                   Z.pos (Win.next_handle os + 1)])
  /\ (forall self os b,
         let flt := {| Posix.pipe_ok := true; Posix.fork_ok := false;
                       Posix.execvp_ok := b |} in
         let rd := Posix.lowest_free (Posix.fds os) in
         let wr := Posix.lowest_free (Posix.fds os ++ [(rd, Posix.PipeRead)]) in
         fst (fst (Posix.on_start flt n p a self os)) = ERR_CANT_FORK
         /\ Posix.fds (snd (Posix.on_start flt n p a self os))
            = (Posix.fds os ++ [(rd, Posix.PipeRead)]) ++ [(wr, Posix.PipeWrite)]
         /\ Posix.pipefd0 (snd (fst (Posix.on_start flt n p a self os))) = rd
         /\ Posix.pipefd1 (snd (fst (Posix.on_start flt n p a self os))) = wr)
  /\ (let flt := {| Win.CreatePipe_ok := true; Win.SetHandleInformation_ok := true;
                    Win.CreateProcessW_ok := false |} in
      fst (fst (Win.on_start flt n p a Win.new_ProcessImpl Win.boot)) = ERR_CANT_FORK
      /\ Win.open_handles (snd (Win.on_start flt n p a Win.new_ProcessImpl Win.boot))
         = []).
Proof.
  repeat split.
Qed.

(** C5. On POSIX the child reaches [execvp] with only its standard output
    on the pipe: descriptor 1 is the pipe's write end while descriptor 2 is
    still the supervisor's own standard error.  On Windows both standard
    handles of the child are the pipe's write end. *)
Theorem posix_child_stderr_not_on_pipe (n p : GString) (a : list GString) (b : bool) :
  (let flt := {| Posix.pipe_ok := true; Posix.fork_ok := true;
                 Posix.execvp_ok := b |} in
   let os1 := snd (create flt n p a Posix.boot) in
   Posix.fd_lookup Posix.STDOUT_FILENO (Posix.child_fds os1) = Some Posix.PipeWrite
   /\ Posix.fd_lookup Posix.STDERR_FILENO (Posix.child_fds os1)
      = Some (Posix.Inherited 2)
   /\ Posix.fd_lookup Posix.STDERR_FILENO (Posix.fds Posix.boot)
      = Some (Posix.Inherited 2))
  /\ (forall os,
         let os1 := snd (create Win.no_faults n p a os) in
         Win.child_hStdOutput os1 = Z.pos (Win.next_handle os + 1)
         /\ Win.child_hStdError os1 = Z.pos (Win.next_handle os + 1)
         /\ Win.si_hStdOutput (fst (create Win.no_faults n p a os))
            = Z.pos (Win.next_handle os + 1)).
Proof.
  repeat split.
Qed.

(** ** The reader thread *)

(** On Windows the reader leaves its loop at the first failed [ReadFile],
    and logs the closing entry. *)
Lemma win_thread_ends_on_failed_read acp chunk self os :
  Win.is_closing self = false ->
  Win._thread_run acp [Some chunk; None] (self, os)
  = Some (fst (Win.consume_chunk acp chunk (self, os)),
          Win.log Verbose
                  (lit "[" ++ Win.proc_name
                                (fst (Win.consume_chunk acp chunk (self, os)))
                       ++ lit "] closed")
                  (snd (Win.consume_chunk acp chunk (self, os)))).
Proof.
  intros Hflag. cbn [Win._thread_run]. cbn [fst]. rewrite Hflag.
  destruct (Win.is_closing (fst (Win.consume_chunk acp chunk (self, os))));
    reflexivity.
Qed.

(** On POSIX end of file does not end the reader: while the flag is clear
    it goes on reading, however many times [read] returns 0. *)
Lemma posix_thread_loops_on_eof k self os :
  Posix.is_closing self = false ->
  Posix._thread_run (repeat Posix.Eof k) true (self, os) = None.
Proof.
  intros Hflag. induction k as [|k IH]; cbn; rewrite Hflag; [reflexivity | exact IH].
Qed.

(** * Further properties of the pump, the launcher and the lifecycle *)

(** Induction along the escape scan: a property of chunks holds for every
    chunk once it follows the five ways the loop advances. *)
Lemma scan_ind (Q : Bytes -> Prop) :
  Q [] -> Q [ESC] ->
  (forall l, Q (skip_csi l) -> Q (ESC :: LBRACKET :: l)) ->
  (forall l, Q (skip_osc l) -> Q (ESC :: RBRACKET :: l)) ->
  (forall next l, next <> LBRACKET -> next <> RBRACKET -> Q l -> Q (ESC :: next :: l)) ->
  (forall ch rest, ch <> ESC -> Q rest -> Q (ch :: rest)) ->
  forall bs, Q bs.
Proof.
  intros Hnil Hesc Hcsi Hosc Htwo Hbyte bs.
  assert (H : forall n bs, (List.length bs <= n)%nat -> Q bs).
  { clear bs. induction n as [|n IH]; intros bs Hlen.
    - destruct bs; [exact Hnil | cbn in Hlen; lia].
    - destruct bs as [|ch rest]; [exact Hnil|]. cbn [List.length] in Hlen.
      destruct (Z.eq_dec ch ESC) as [->|Hne]; [|apply Hbyte; [exact Hne | apply IH; lia]].
      destruct rest as [|next l]; [exact Hesc|]. cbn [List.length] in Hlen.
      destruct (Z.eq_dec next LBRACKET) as [->|Hb].
      + apply Hcsi, IH. pose proof (skip_csi_length l). lia.
      + destruct (Z.eq_dec next RBRACKET) as [->|Hr].
        * apply Hosc, IH. pose proof (skip_osc_length l). lia.
        * apply Htwo; [exact Hb | exact Hr | apply IH; lia]. }
  exact (H (List.length bs) bs (le_n _)).
Qed.

Lemma strip_csi l : strip (ESC :: LBRACKET :: l) = strip (skip_csi l).
Proof.
  cbn -[skip_csi is_csi_final].
  induction l as [|c l IH]; cbn -[is_csi_final]; [reflexivity|].
  destruct (is_csi_final c); [reflexivity | exact IH].
Qed.

Lemma strip_osc l : strip (ESC :: RBRACKET :: l) = strip (skip_osc l).
Proof.
  cbn -[skip_osc].
  induction l as [|c l IH]; cbn; [reflexivity|].
  destruct (c =? BEL); [reflexivity|].
  destruct (c =? ESC); [|exact IH].
  destruct l as [|c' l']; [exact IH|].
  destruct (c' =? BACKSLASH); [reflexivity | exact IH].
Qed.

Lemma strip_esc_other next l :
  next <> LBRACKET -> next <> RBRACKET -> strip (ESC :: next :: l) = strip l.
Proof.
  intros H1 H2. apply Z.eqb_neq in H1, H2. cbn. rewrite H1, H2. reflexivity.
Qed.

Lemma strip_byte ch rest : ch <> ESC -> strip (ch :: rest) = ch :: strip rest.
Proof. intros H. apply Z.eqb_neq in H. cbn. rewrite H. reflexivity. Qed.

Section Factor.
Context {St : Type}.
Variable put : Z -> St -> St.
Variable fl : St -> St.

Lemma consume_byte ch rest st :
  ch <> ESC -> consume put fl (ch :: rest) st = consume put fl rest (feed put fl st ch).
Proof.
  intros H. apply Z.eqb_neq in H. cbn. rewrite H. unfold feed, is_terminator.
  destruct ((ch =? LF) || (ch =? CR)); reflexivity.
Qed.

Lemma consume_fold_strip (bs : Bytes) (st : St) :
  consume put fl bs st = fold_left (feed put fl) (strip bs) st.
Proof.
  revert st.
  induction bs as [ | | l IH | l IH | next l Hb Hr IH | ch rest Hne IH] using scan_ind;
    intros st.
  - reflexivity.
  - reflexivity.
  - rewrite consume_csi, strip_csi. apply IH.
  - rewrite consume_osc, strip_osc. apply IH.
  - rewrite strip_esc_other by assumption.
    apply Z.eqb_neq in Hb, Hr. rewrite consume_esc_other by assumption. apply IH.
  - rewrite consume_byte, strip_byte by assumption. cbn [fold_left]. apply IH.
Qed.
End Factor.

Lemma strip_facts (bs : Bytes) :
  Forall (fun b => b <> ESC) (strip bs)
  /\ strip (strip bs) = strip bs
  /\ (List.length (strip bs) <= List.length bs)%nat
  /\ (Forall (fun b => b <> ESC) bs -> strip bs = bs).
Proof.
  assert (Hid : forall l, Forall (fun b => b <> ESC) l -> strip l = l).
  { induction 1 as [|b l Hb _ IH]; [reflexivity|].
    rewrite strip_byte by exact Hb. rewrite IH. reflexivity. }
  assert (Hno : Forall (fun b => b <> ESC) (strip bs)).
  { induction bs as [ | | l IH | l IH | next l Hb Hr IH | ch rest Hne IH] using scan_ind.
    - constructor.
    - constructor.
    - rewrite strip_csi. assumption.
    - rewrite strip_osc. assumption.
    - rewrite strip_esc_other by assumption. assumption.
    - rewrite strip_byte by assumption. constructor; assumption. }
  split; [exact Hno|]. split; [exact (Hid _ Hno)|]. split; [|exact (Hid bs)].
  clear Hno Hid.
  induction bs as [ | | l IH | l IH | next l Hb Hr IH | ch rest Hne IH] using scan_ind.
  - cbn; lia.
  - cbn; lia.
  - rewrite strip_csi. pose proof (skip_csi_length l). cbn [List.length]. lia.
  - rewrite strip_osc. pose proof (skip_osc_length l). cbn [List.length]. lia.
  - rewrite strip_esc_other by assumption. cbn [List.length]. lia.
  - rewrite strip_byte by assumption. cbn [List.length]. lia.
Qed.

(** Scanning what the scan has left changes nothing: the chunk loop does
    the same on [strip bs] as on [bs]. *)
Lemma consume_stripped
        {St : Type} (put : Z -> St -> St) (fl : St -> St) (bs : Bytes) (st : St) :
  consume put fl (strip bs) st = consume put fl bs st.
Proof.
  rewrite !consume_fold_strip.
  rewrite (proj1 (proj2 (strip_facts bs))). reflexivity.
Qed.

Section PumpLaws.
Context {St R : Type}.
Variable put : Z -> St -> St.
Variable fl : St -> St.
Variable line : St -> Bytes.
Variable out : St -> LogSink.
Variable rest : St -> R.
Variable emit : R -> Bytes -> list LogEntry.
Hypothesis put_line : forall c st, line (put c st) = line st ++ [c].
Hypothesis put_out : forall c st, out (put c st) = out st.
Hypothesis put_rest : forall c st, rest (put c st) = rest st.
Hypothesis fl_line : forall st, line (fl st) = [].
Hypothesis fl_out : forall st, out (fl st) = out st ++ emit (rest st) (line st).
Hypothesis fl_rest : forall st, rest (fl st) = rest st.

Lemma fold_feed_assemble l : forall st,
  line (fold_left (feed put fl) l st) = snd (assemble (line st) l)
  /\ out (fold_left (feed put fl) l st)
     = out st ++ flat_map (emit (rest st)) (fst (assemble (line st) l))
  /\ rest (fold_left (feed put fl) l st) = rest st.
Proof.
  induction l as [|b l IH]; intros st.
  - cbn. rewrite app_nil_r. repeat split.
  - cbn [fold_left assemble]. unfold feed at 2 4 6.
    destruct (is_terminator b).
    + destruct (IH (fl (put NUL st))) as (H1 & H2 & H3).
      rewrite H1, H2, H3, fl_line, fl_out, fl_rest, put_line, put_out, put_rest.
      cbn [fst snd flat_map]. rewrite <- app_assoc. repeat split.
    + destruct (IH (put b st)) as (H1 & H2 & H3).
      rewrite H1, H2, H3, put_line, put_out, put_rest. repeat split.
Qed.

Lemma consume_assemble bs st :
  line (consume put fl bs st) = snd (assemble (line st) (strip bs))
  /\ out (consume put fl bs st)
     = out st ++ flat_map (emit (rest st)) (fst (assemble (line st) (strip bs)))
  /\ rest (consume put fl bs st) = rest st.
Proof. rewrite consume_fold_strip. apply fold_feed_assemble. Qed.
End PumpLaws.

Lemma posix_impl_eq (p q : Posix.ProcessImpl) :
  Posix.set_rd_line [] p = Posix.set_rd_line [] q ->
  p = Posix.set_rd_line (Posix.rd_line p) q.
Proof. destruct p, q. cbn. intros H. injection H as -> -> -> -> -> ->. reflexivity. Qed.

Lemma posix_os_eq (a b : Posix.OS) :
  Posix.set_sink [] a = Posix.set_sink [] b -> a = Posix.set_sink (Posix.sink a) b.
Proof.
  destruct a, b. cbn. intros H. injection H as -> -> -> -> -> -> -> ->. reflexivity.
Qed.

Lemma posix_pump_assemble (bs : Bytes) (self : Posix.ProcessImpl) (os : Posix.OS) :
  let lines := assemble (Posix.rd_line self) (strip bs) in
  Posix.consume_chunk bs (self, os)
  = (Posix.set_rd_line (snd lines) self,
     Posix.set_sink
       (Posix.sink os ++ flat_map (posix_emit (Posix.proc_name self)) (fst lines)) os).
Proof.
  cbv zeta.
  destruct (consume_assemble Posix._append_char_to_line Posix._flush
              (fun st => Posix.rd_line (fst st))
              (fun st => Posix.sink (snd st))
              (fun st => (Posix.set_rd_line [] (fst st), Posix.set_sink [] (snd st)))
              (fun r => posix_emit (Posix.proc_name (fst r))))
    with (bs := bs) (st := (self, os)) as (H1 & H2 & H3).
  - reflexivity.
  - reflexivity.
  - reflexivity.
  - intros [p o]. unfold Posix._flush. cbn.
    destruct (Posix.rd_line p) eqn:E; [exact E | reflexivity].
  - intros [p o]. unfold Posix._flush, posix_emit. cbn.
    destruct (Posix.rd_line p) as [|b l]; [cbn; rewrite app_nil_r; reflexivity|].
    destruct (append_utf8 (b :: l)) as [[] s]; cbn; rewrite ?app_nil_r; reflexivity.
  - intros [p o]. unfold Posix._flush. cbn.
    destruct (Posix.rd_line p) as [|b l]; [reflexivity|].
    destruct (append_utf8 (b :: l)) as [[] s]; reflexivity.
  - unfold Posix.consume_chunk.
    destruct (consume Posix._append_char_to_line Posix._flush bs (self, os)) as [p o].
    cbn [fst snd] in *.
    pose proof (f_equal fst H3) as Hp. pose proof (f_equal snd H3) as Ho.
    cbn [fst snd] in Hp, Ho.
    rewrite (posix_impl_eq _ _ Hp), (posix_os_eq _ _ Ho), H1, H2. reflexivity.
Qed.

Lemma win_impl_eq (p q : Win.ProcessImpl) :
  Win.set_rd_line [] p = Win.set_rd_line [] q ->
  p = Win.set_rd_line (Win.rd_line p) q.
Proof.
  destruct p, q. cbn. intros H. injection H as -> -> -> -> -> -> -> -> ->.
  reflexivity.
Qed.

Lemma win_os_eq (a b : Win.OS) :
  Win.set_sink [] a = Win.set_sink [] b -> a = Win.set_sink (Win.sink a) b.
Proof. destruct a, b. cbn. intros H. injection H as -> -> -> -> -> -> ->. reflexivity. Qed.

Lemma win_pump_assemble
        (acp : Bytes -> list Z) (bs : Bytes) (self : Win.ProcessImpl) (os : Win.OS) :
  let lines := assemble (Win.rd_line self) (strip bs) in
  Win.consume_chunk acp bs (self, os)
  = (Win.set_rd_line (snd lines) self,
     Win.set_sink
       (Win.sink os ++ flat_map (win_emit acp (Win.proc_name self)) (fst lines)) os).
Proof.
  cbv zeta.
  destruct (consume_assemble Win._append_char_to_line (Win._flush acp)
              (fun st => Win.rd_line (fst st))
              (fun st => Win.sink (snd st))
              (fun st => (Win.set_rd_line [] (fst st), Win.set_sink [] (snd st)))
              (fun r => win_emit acp (Win.proc_name (fst r))))
    with (bs := bs) (st := (self, os)) as (H1 & H2 & H3).
  - reflexivity.
  - reflexivity.
  - reflexivity.
  - intros [p o]. unfold Win._flush. cbn.
    destruct (Win.rd_line p) eqn:E; [exact E | reflexivity].
  - intros [p o]. unfold Win._flush, win_emit. cbn.
    destruct (Win.rd_line p) as [|b l]; [cbn; rewrite app_nil_r; reflexivity|].
    destruct (Win.decode_line acp (b :: l)); cbn; rewrite ?app_nil_r; reflexivity.
  - intros [p o]. unfold Win._flush. cbn.
    destruct (Win.rd_line p) as [|b l]; [reflexivity|].
    destruct (Win.decode_line acp (b :: l)); reflexivity.
  - unfold Win.consume_chunk.
    destruct (consume Win._append_char_to_line (Win._flush acp) bs (self, os)) as [p o].
    cbn [fst snd] in *.
    pose proof (f_equal fst H3) as Hp. pose proof (f_equal snd H3) as Ho.
    cbn [fst snd] in Hp, Ho.
    rewrite (win_impl_eq _ _ Hp), (win_os_eq _ _ Ho), H1, H2. reflexivity.
Qed.

(** *** Facts on [assemble] and on what [_flush] emits *)

Lemma assemble_count buf l :
  List.length (fst (assemble buf l)) = count_terminators l.
Proof.
  unfold count_terminators. revert buf.
  induction l as [|b l IH]; intros buf; [reflexivity|].
  cbn. destruct (is_terminator b); cbn; rewrite IH; reflexivity.
Qed.

Lemma assemble_plain t : forall buf r,
  Forall (fun b => is_terminator b = false) t ->
  assemble buf (t ++ r) = assemble (buf ++ t) r.
Proof.
  induction t as [|b t IH]; intros buf r Ht.
  - rewrite app_nil_r. reflexivity.
  - inversion Ht as [|? ? Hb Ht']; subst. cbn [List.app assemble]. rewrite Hb.
    rewrite IH by exact Ht'. rewrite <- app_assoc. reflexivity.
Qed.

Lemma assemble_unterminated t buf :
  Forall (fun b => is_terminator b = false) t -> assemble buf t = ([], buf ++ t).
Proof.
  intros Ht. rewrite <- (app_nil_r t) at 1. rewrite assemble_plain by exact Ht.
  reflexivity.
Qed.

Lemma assemble_buffer_plain l : forall buf,
  Forall (fun b => is_plain b = true) buf -> Forall (fun b => b <> ESC) l ->
  Forall (fun b => is_plain b = true) (snd (assemble buf l)).
Proof.
  induction l as [|b l IH]; intros buf Hbuf Hl; [exact Hbuf|].
  inversion Hl as [|? ? Hb Hl']; subst. cbn [assemble].
  destruct (is_terminator b) eqn:E; cbn [snd].
  - apply IH; [constructor | exact Hl'].
  - apply IH; [|exact Hl'].
    apply Forall_app. split; [exact Hbuf|]. constructor; [|constructor].
    unfold is_plain. rewrite E. apply Z.eqb_neq in Hb. rewrite Hb. reflexivity.
Qed.

Lemma flat_map_length_le {A B} (f : A -> list B) (l : list A) :
  (forall a, List.length (f a) <= 1)%nat ->
  (List.length (flat_map f l) <= List.length l)%nat.
Proof.
  intros Hf. induction l as [|a l IH]; [cbn; lia|].
  cbn. rewrite length_app. specialize (Hf a). lia.
Qed.

Lemma skip_csi_count l : (count_terminators (skip_csi l) <= count_terminators l)%nat.
Proof.
  unfold count_terminators. induction l as [|c l IH]; [cbn; lia|].
  cbn -[is_csi_final]. destruct (is_csi_final c), (is_terminator c); cbn; lia.
Qed.

Lemma skip_osc_count l : (count_terminators (skip_osc l) <= count_terminators l)%nat.
Proof.
  unfold count_terminators. induction l as [|c l IH]; [cbn; lia|].
  cbn [skip_osc filter].
  destruct (c =? BEL); [destruct (is_terminator c); cbn; lia|].
  destruct (c =? ESC).
  - destruct l as [|c' l']; [destruct (is_terminator c); cbn; lia|].
    destruct (c' =? BACKSLASH).
    + cbn [filter]. destruct (is_terminator c), (is_terminator c'); cbn; lia.
    + destruct (is_terminator c); cbn [List.length]; lia.
  - destruct (is_terminator c); cbn [List.length]; lia.
Qed.

Lemma strip_count bs : (count_terminators (strip bs) <= count_terminators bs)%nat.
Proof.
  induction bs as [ | | l IH | l IH | next l Hb Hr IH | ch rest Hne IH] using scan_ind.
  - cbn; lia.
  - cbn; lia.
  - rewrite strip_csi. pose proof (skip_csi_count l).
    unfold count_terminators in *. cbn [filter].
    destruct (is_terminator ESC), (is_terminator LBRACKET); cbn [List.length]; lia.
  - rewrite strip_osc. pose proof (skip_osc_count l).
    unfold count_terminators in *. cbn [filter].
    destruct (is_terminator ESC), (is_terminator RBRACKET); cbn [List.length]; lia.
  - rewrite strip_esc_other by assumption.
    unfold count_terminators in *. cbn [filter].
    destruct (is_terminator ESC), (is_terminator next); cbn [List.length]; lia.
  - rewrite strip_byte by assumption.
    unfold count_terminators in *. cbn [filter].
    destruct (is_terminator ch); cbn [List.length]; lia.
Qed.

Lemma posix_emit_shape name line :
  (List.length (posix_emit name line) <= 1)%nat
  /\ Forall (tagged_line name) (posix_emit name line).
Proof.
  unfold posix_emit. destruct line as [|b l]; [cbn; split; [lia | constructor]|].
  destruct (append_utf8 (b :: l)) as [[] s]; cbn; split; try lia; try constructor;
    try constructor. exists s. reflexivity.
Qed.

Lemma win_emit_shape acp name line :
  (List.length (win_emit acp name line) <= 1)%nat
  /\ Forall (tagged_line name) (win_emit acp name line).
Proof.
  unfold win_emit. destruct line as [|b l]; [cbn; split; [lia | constructor]|].
  destruct (Win.decode_line acp (b :: l)) as [|c s]; cbn; split; try lia;
    try constructor; try constructor. exists (c :: s). reflexivity.
Qed.

Lemma Forall_flat_map {A B} (P : B -> Prop) (f : A -> list B) (l : list A) :
  (forall a, Forall P (f a)) -> Forall P (flat_map f l).
Proof.
  intros Hf. induction l as [|a l IH]; [constructor|].
  cbn. apply Forall_app. split; [apply Hf | exact IH].
Qed.

(** ** The escape scan and the line assembly as functions *)

(** X1. The chunk loop is the escape scan followed by the line assembly:
    consuming a chunk feeds the bytes [strip] leaves of it, one by one, to
    the line buffer, and consuming several chunks feeds what [strip] leaves
    of each. *)
Theorem consume_factors_through_strip
        {St : Type} (put : Z -> St -> St) (fl : St -> St)
        (bs : Bytes) (chunks : list Bytes) (st : St) :
  consume put fl bs st = fold_left (feed put fl) (strip bs) st
  /\ consume_all put fl chunks st
     = fold_left (feed put fl) (flat_map strip chunks) st.
Proof.
  split; [apply consume_fold_strip|].
  unfold consume_all. revert st.
  induction chunks as [|c chunks IH]; intros st; [reflexivity|].
  cbn [fold_left flat_map]. rewrite fold_left_app, <- consume_fold_strip. apply IH.
Qed.

(** X2. The escape scan lets no ESC byte through, never lengthens a chunk,
    leaves a chunk without ESC as it is, and scanning its own output
    changes nothing — neither in the bytes nor in what the chunk loop does
    with them. *)
Theorem strip_removes_escapes (bs : Bytes) :
  Forall (fun b => b <> ESC) (strip bs)
  /\ strip (strip bs) = strip bs
  /\ (List.length (strip bs) <= List.length bs)%nat
  /\ (Forall (fun b => b <> ESC) bs -> strip bs = bs)
  /\ (forall (St : Type) (put : Z -> St -> St) (fl : St -> St) (st : St),
         consume put fl (strip bs) st = consume put fl bs st).
Proof.
  destruct (strip_facts bs) as (H1 & H2 & H3 & H4).
  repeat split; try assumption.
  intros St put fl st. apply consume_stripped.
Qed.

Lemma strip_removes_escapes_witness :
  Forall (fun b => b <> ESC) (lit "plain text")
  /\ strip (lit "plain text") = lit "plain text".
Proof.
  assert (H : Forall (fun b => b <> ESC) (lit "plain text"))
    by (repeat constructor; discriminate).
  split; [exact H|].
  exact (proj1 (proj2 (proj2 (proj2 (strip_removes_escapes (lit "plain text"))))) H).
Defined.

(** X3. Both pumps are the same line assembler and differ only in what
    [_flush] makes of a buffer: a chunk leaves in the line buffer what
    [assemble] leaves, appends to the sink what [_flush] emits for each
    completed buffer, in order, and changes nothing else of the handle or
    of the system. *)
Theorem pump_refines_assemble (bs : Bytes) :
  (forall acp self os,
      Win.consume_chunk acp bs (self, os)
      = (Win.set_rd_line (snd (assemble (Win.rd_line self) (strip bs))) self,
         Win.set_sink
           (Win.sink os ++ flat_map (win_emit acp (Win.proc_name self))
                             (fst (assemble (Win.rd_line self) (strip bs))))
           os))
  /\ (forall self os,
         Posix.consume_chunk bs (self, os)
         = (Posix.set_rd_line (snd (assemble (Posix.rd_line self) (strip bs))) self,
            Posix.set_sink
              (Posix.sink os ++ flat_map (posix_emit (Posix.proc_name self))
                                  (fst (assemble (Posix.rd_line self) (strip bs))))
              os)).
Proof.
  split.
  - intros acp self os. apply win_pump_assemble.
  - intros self os. apply posix_pump_assemble.
Qed.

(** X4. A chunk adds at most one log entry per LF or CR byte it contains,
    each a [Log] entry tagged with the process name; a chunk without line
    terminator logs nothing. *)
Theorem pump_logs_at_most_one_line_per_terminator (bs : Bytes) :
  (forall acp self os,
      exists added,
        Win.sink (snd (Win.consume_chunk acp bs (self, os))) = Win.sink os ++ added
        /\ (List.length added <= count_terminators bs)%nat
        /\ Forall (tagged_line (Win.proc_name self)) added)
  /\ (forall self os,
         exists added,
           Posix.sink (snd (Posix.consume_chunk bs (self, os))) = Posix.sink os ++ added
           /\ (List.length added <= count_terminators bs)%nat
           /\ Forall (tagged_line (Posix.proc_name self)) added).
Proof.
  split.
  - intros acp self os. rewrite win_pump_assemble. cbn [snd Win.sink Win.set_sink].
    eexists. split; [reflexivity|]. split.
    + etransitivity; [apply flat_map_length_le; intros a; apply win_emit_shape|].
      rewrite assemble_count. apply strip_count.
    + apply Forall_flat_map. intros a. apply win_emit_shape.
  - intros self os. rewrite posix_pump_assemble.
    cbn [snd Posix.sink Posix.set_sink].
    eexists. split; [reflexivity|]. split.
    + etransitivity; [apply flat_map_length_le; intros a; apply posix_emit_shape|].
      rewrite assemble_count. apply strip_count.
    + apply Forall_flat_map. intros a. apply posix_emit_shape.
Qed.

(** X5. No ESC, LF or CR byte ever enters the line buffer: if the buffer
    holds none before a chunk, it holds none after it. *)
Theorem pump_keeps_buffer_plain (bs : Bytes) :
  (forall acp self os,
      Forall (fun b => is_plain b = true) (Win.rd_line self) ->
      Forall (fun b => is_plain b = true)
             (Win.rd_line (fst (Win.consume_chunk acp bs (self, os)))))
  /\ (forall self os,
         Forall (fun b => is_plain b = true) (Posix.rd_line self) ->
         Forall (fun b => is_plain b = true)
                (Posix.rd_line (fst (Posix.consume_chunk bs (self, os))))).
Proof.
  split.
  - intros acp self os H. rewrite win_pump_assemble. cbn.
    apply assemble_buffer_plain; [exact H | apply strip_facts].
  - intros self os H. rewrite posix_pump_assemble. cbn.
    apply assemble_buffer_plain; [exact H | apply strip_facts].
Qed.

Lemma pump_keeps_buffer_plain_witness :
  Forall (fun b => is_plain b = true) (Posix.rd_line (Posix.set_rd_line (lit "ab") Posix.new_ProcessImpl))
  /\ Forall (fun b => is_plain b = true)
            (Posix.rd_line
               (fst (Posix.consume_chunk (csi_red ++ lit "c")
                       (Posix.set_rd_line (lit "ab") Posix.new_ProcessImpl, Posix.boot)))).
Proof.
  assert (H : Forall (fun b => is_plain b = true)
                (Posix.rd_line (Posix.set_rd_line (lit "ab") Posix.new_ProcessImpl))).
  { repeat constructor. }
  split; [exact H|].
  exact (proj2 (pump_keeps_buffer_plain (csi_red ++ lit "c")) _ Posix.boot H).
Defined.

(** *** Decoding of 7-bit text *)


Lemma is_plain_spec b :
  is_plain b = true -> b <> ESC /\ is_terminator b = false.
Proof.
  unfold is_plain. intros H. apply andb_true_iff in H as [H1 H2].
  apply negb_true_iff in H1, H2. apply Z.eqb_neq in H1. split; assumption.
Qed.






Lemma strip_plain t : Forall (fun b => is_plain b = true) t -> strip t = t.
Proof.
  intros H. apply strip_facts.
  eapply Forall_impl; [|exact H]. intros b Hb. apply is_plain_spec in Hb. tauto.
Qed.

Lemma plain_not_terminator t :
  Forall (fun b => is_plain b = true) t -> Forall (fun b => is_terminator b = false) t.
Proof.
  intros H. eapply Forall_impl; [|exact H]. intros b Hb.
  apply is_plain_spec in Hb. tauto.
Qed.

Lemma strip_line t term :
  Forall (fun b => is_plain b = true) t -> is_terminator term = true ->
  strip (t ++ [term]) = t ++ [term].
Proof.
  intros Ht Hterm. apply strip_facts. apply Forall_app. split.
  - eapply Forall_impl; [|exact Ht]. intros b Hb. apply is_plain_spec in Hb. tauto.
  - constructor; [|constructor]. intros ->. discriminate Hterm.
Qed.

Lemma assemble_line buf t term :
  Forall (fun b => is_plain b = true) t -> is_terminator term = true ->
  assemble buf (t ++ [term]) = ([(buf ++ t) ++ [NUL]], []).
Proof.
  intros Ht Hterm. rewrite assemble_plain by (apply plain_not_terminator; exact Ht).
  cbn. rewrite Hterm. reflexivity.
Qed.



Lemma win_decode_cases acp line :
  Win.decode_line acp line
  = match acp line with
    | [] => String_utf8 line
    | w => c_str w
    end.
Proof.
  unfold Win.decode_line.
  destruct (acp line) as [|w ws] eqn:E; [reflexivity|].
  cbn -[c_str List.app]. unfold String_of_wide.
  destruct ((w :: ws) ++ [NUL]) eqn:E2; [discriminate E2|].
  rewrite <- E2. apply c_str_app_nul.
Qed.

(** X7. On Windows a line of plain bytes is logged as the text [x] made
    of it: what the code page converts the buffer to, read up to its first
    NUL, or, when the conversion yields nothing, the UTF-8 reading of the
    buffer.  The line is logged when [x] is not empty and not at all when
    it is; either way the buffer is left empty. *)
Theorem win_line_logged_as_converted
        (acp : Bytes -> list Z) (t : Bytes) (term : Z)
        (self : Win.ProcessImpl) (os : Win.OS) :
  Forall (fun b => is_plain b = true) t ->
  is_terminator term = true ->
  let line := (Win.rd_line self ++ t) ++ [NUL] in
  let x := match acp line with
           | [] => String_utf8 line
           | w => c_str w
           end in
  Win.consume_chunk acp (t ++ [term]) (self, os)
  = (Win.set_rd_line [] self,
     Win.set_sink
       (Win.sink os ++ match x with
                       | [] => []
                       | _ => [log_line (Win.proc_name self) x]
                       end)
       os).
Proof.
  intros Ht Hterm. cbv zeta.
  rewrite win_pump_assemble. cbv zeta.
  rewrite strip_line, assemble_line by assumption.
  cbn [fst snd flat_map]. rewrite app_nil_r.
  unfold win_emit. rewrite win_decode_cases.
  destruct ((Win.rd_line self ++ t) ++ [NUL]) as [|b line] eqn:E;
    [apply app_eq_nil in E as [_ E]; discriminate E|].
  destruct (match acp (b :: line) with
            | [] => String_utf8 (b :: line)
            | w :: ws => c_str (w :: ws)
            end); reflexivity.
Qed.

Lemma win_line_logged_as_converted_witness :
  let self := Win.set_rd_line (lit "he") Win.new_ProcessImpl in
  Forall (fun b => is_plain b = true) (lit "llo")
  /\ is_terminator CR = true
  /\ Win.sink (snd (Win.consume_chunk upper_case (lit "llo" ++ [CR]) (self, Win.boot)))
     = [log_line [] (lit "HELLO")]
  /\ Win.sink (snd (Win.consume_chunk (fun _ => []) (lit "llo" ++ [CR]) (self, Win.boot)))
     = [log_line [] (lit "hello")]
  /\ Win.sink (snd (Win.consume_chunk (fun _ => [NUL]) (lit "llo" ++ [CR])
                                      (self, Win.boot)))
     = [].
Proof.
  cbv zeta.
  assert (H1 : Forall (fun b => is_plain b = true) (lit "llo")) by (repeat constructor).
  split; [exact H1|]. split; [reflexivity|]. split; [|split].
  - rewrite (win_line_logged_as_converted upper_case (lit "llo") CR _ Win.boot H1 eq_refl).
    reflexivity.
  - rewrite (win_line_logged_as_converted (fun _ => []) (lit "llo") CR _ Win.boot
               H1 eq_refl).
    reflexivity.
  - rewrite (win_line_logged_as_converted (fun _ => [NUL]) (lit "llo") CR _ Win.boot
               H1 eq_refl).
    reflexivity.
Defined.

(** ** The reader threads as a whole *)

Lemma win_consume_is_closing acp bs self os :
  Win.is_closing (fst (Win.consume_chunk acp bs (self, os))) = Win.is_closing self.
Proof. rewrite win_pump_assemble. reflexivity. Qed.

Lemma posix_consume_is_closing bs self os :
  Posix.is_closing (fst (Posix.consume_chunk bs (self, os))) = Posix.is_closing self.
Proof. rewrite posix_pump_assemble. reflexivity. Qed.

(** X8. The Windows reader, run until [ReadFile] fails, has consumed the
    chunks read until then and added the "closed" entry; it flushes
    nothing at the end, so output after the last line terminator is never
    logged.  With the flag set it reads nothing at all. *)
Theorem win_reader_effect
        (acp : Bytes -> list Z) (chunks : list Bytes) (later : list (option Bytes))
        (self : Win.ProcessImpl) (os : Win.OS) :
  (Win.is_closing self = false ->
   Win._thread_run acp (map Some chunks ++ None :: later) (self, os)
   = Some (win_closed
             (consume_all Win._append_char_to_line (Win._flush acp) chunks (self, os))))
  /\ (Win.is_closing self = false ->
      forall t : Bytes, Forall (fun b => is_plain b = true) t ->
        option_map (fun st => (Win.rd_line (fst st), Win.sink (snd st)))
                   (Win._thread_run acp (Some t :: None :: later) (self, os))
        = Some (Win.rd_line self ++ t,
                Win.sink os ++ [{| severity := Verbose;
                                   text := lit "[" ++ Win.proc_name self ++ lit "] closed" |}]))
  /\ (Win.is_closing self = true ->
      Win._thread_run acp (map Some chunks ++ later) (self, os)
      = Some (win_closed (self, os))).
Proof.
  assert (Hrun : forall chunks self os, Win.is_closing self = false ->
            Win._thread_run acp (map Some chunks ++ None :: later) (self, os)
            = Some (win_closed
                      (consume_all Win._append_char_to_line (Win._flush acp)
                                   chunks (self, os)))).
  { clear. induction chunks as [|c chunks IH]; intros self os Hflag.
    - cbn. rewrite Hflag. reflexivity.
    - cbn [map List.app Win._thread_run]. cbn [fst]. rewrite Hflag.
      destruct (Win.consume_chunk acp c (self, os)) as [self' os'] eqn:E.
      unfold consume_all. cbn [fold_left].
      change (consume Win._append_char_to_line (Win._flush acp) c (self, os))
        with (Win.consume_chunk acp c (self, os)).
      rewrite E. apply IH.
      pose proof (win_consume_is_closing acp c self os) as H. rewrite E in H.
      cbn in H. congruence. }
  split; [apply Hrun|]. split.
  - intros Hflag t Ht.
    change (Some t :: None :: later) with (map Some [t : Bytes] ++ None :: later).
    rewrite (Hrun [t] self os Hflag). unfold consume_all. cbn [fold_left option_map].
    change (consume Win._append_char_to_line (Win._flush acp) t (self, os))
      with (Win.consume_chunk acp t (self, os)).
    rewrite win_pump_assemble. cbv zeta.
    rewrite strip_plain by exact Ht.
    rewrite assemble_unterminated by (apply plain_not_terminator; exact Ht).
    cbn. rewrite app_nil_r. reflexivity.
  - intros Hflag. destruct (map Some chunks ++ later); cbn; rewrite Hflag; reflexivity.
Qed.

Lemma win_reader_effect_witness :
  Win.is_closing Win.new_ProcessImpl = false
  /\ Forall (fun b => is_plain b = true) (lit "c")
  /\ option_map (fun st => (Win.rd_line (fst st), Win.sink (snd st)))
       (Win._thread_run (fun bs => bs) [Some (lit "c"); None]
                        (Win.new_ProcessImpl, Win.boot))
     = Some (lit "c", [{| severity := Verbose; text := lit "[] closed" |}])
  /\ Win.is_closing (fst (stop (fst win_started) (snd win_started))) = true
  /\ Win._thread_run (fun bs => bs) (map Some [lit "late"] ++ [])
                     (fst (stop (fst win_started) (snd win_started)), Win.boot)
     = Some (win_closed (fst (stop (fst win_started) (snd win_started)), Win.boot)).
Proof.
  assert (H1 : Win.is_closing Win.new_ProcessImpl = false) by reflexivity.
  assert (H2 : Forall (fun b => is_plain b = true) (lit "c")) by (repeat constructor).
  assert (H3 : Win.is_closing (fst (stop (fst win_started) (snd win_started))) = true)
    by reflexivity.
  split; [exact H1|]. split; [exact H2|]. split; [|split; [exact H3|]].
  - exact (proj1 (proj2 (win_reader_effect (fun bs => bs) [] [] Win.new_ProcessImpl Win.boot))
                 H1 (lit "c") H2).
  - exact (proj2 (proj2 (win_reader_effect (fun bs => bs) [lit "late"] [] _ Win.boot)) H3).
Defined.

(** X9. The POSIX reader leaves its loops only through a failed [read]
    or by seeing the flag: as long as the flag is clear and every [read]
    returns data, end of file or [EINTR], it is still running. *)
Theorem posix_reader_needs_flag_or_failure
        (reads : list Posix.ReadResult) (at_head : bool)
        (self : Posix.ProcessImpl) (os : Posix.OS) :
  Posix.is_closing self = false ->
  Forall (fun r => r <> Posix.Failed) reads ->
  Posix._thread_run reads at_head (self, os) = None.
Proof.
  intros Hflag Hreads. revert at_head self os Hflag.
  induction Hreads as [|r reads Hr _ IH]; intros at_head self os Hflag.
  - cbn. rewrite Hflag, andb_false_r. reflexivity.
  - cbn [Posix._thread_run]. cbn [fst]. rewrite Hflag, andb_false_r.
    destruct r as [chunk| | |]; try (apply IH; exact Hflag); [|contradiction].
    destruct (Posix.consume_chunk chunk (self, os)) as [self' os'] eqn:E.
    apply IH. pose proof (posix_consume_is_closing chunk self os) as H.
    rewrite E in H. cbn in H. congruence.
Qed.

Lemma posix_reader_needs_flag_or_failure_witness :
  Posix.is_closing (fst posix_started) = false
  /\ Forall (fun r => r <> Posix.Failed)
            [Posix.Data (lit "a"); Posix.Eof; Posix.Interrupted; Posix.Eof]
  /\ Posix._thread_run [Posix.Data (lit "a"); Posix.Eof; Posix.Interrupted; Posix.Eof]
                       true posix_started = None.
Proof.
  assert (H1 : Posix.is_closing (fst posix_started) = false) by reflexivity.
  assert (H2 : Forall (fun r => r <> Posix.Failed)
                 [Posix.Data (lit "a"); Posix.Eof; Posix.Interrupted; Posix.Eof])
    by (repeat constructor; discriminate).
  split; [exact H1|]. split; [exact H2|].
  exact (posix_reader_needs_flag_or_failure _ true (fst posix_started)
           (snd posix_started) H1 H2).
Defined.

Lemma posix_consume_all_frame chunks : forall self os,
  Posix.is_closing
    (fst (consume_all Posix._append_char_to_line Posix._flush chunks (self, os)))
  = Posix.is_closing self
  /\ Posix.proc_name
       (fst (consume_all Posix._append_char_to_line Posix._flush chunks (self, os)))
     = Posix.proc_name self
  /\ Posix.pipefd0
       (fst (consume_all Posix._append_char_to_line Posix._flush chunks (self, os)))
     = Posix.pipefd0 self
  /\ Posix.child_id_
       (fst (consume_all Posix._append_char_to_line Posix._flush chunks (self, os)))
     = Posix.child_id_ self
  /\ Posix.calls
       (snd (consume_all Posix._append_char_to_line Posix._flush chunks (self, os)))
     = Posix.calls os
  /\ Posix.fds
       (snd (consume_all Posix._append_char_to_line Posix._flush chunks (self, os)))
     = Posix.fds os.
Proof.
  unfold consume_all.
  induction chunks as [|c chunks IH]; intros self os; [repeat split|].
  cbn [fold_left].
  change (consume Posix._append_char_to_line Posix._flush c (self, os))
    with (Posix.consume_chunk c (self, os)).
  rewrite posix_pump_assemble. cbv zeta.
  destruct (IH (Posix.set_rd_line
                  (snd (assemble (Posix.rd_line self) (strip c))) self)
               (Posix.set_sink
                  (Posix.sink os
                   ++ flat_map (posix_emit (Posix.proc_name self))
                        (fst (assemble (Posix.rd_line self) (strip c)))) os))
    as (H1 & H2 & H3 & H4 & H5 & H6).
  rewrite H1, H2, H3, H4, H5, H6. repeat split.
Qed.

(** X10. A failed [read] ends the POSIX reader: what it has consumed
    stays, an Error entry and the Verbose "closed" entry with an exit
    status are logged, and the thread itself closes the pipe's read end
    and waits for the child. *)
Theorem posix_reader_on_failed_read
        (chunks : list Bytes) (later : list Posix.ReadResult)
        (self : Posix.ProcessImpl) (os : Posix.OS) :
  Posix.is_closing self = false ->
  exists final status,
    Posix._thread_run (map Posix.Data chunks ++ Posix.Failed :: later) true (self, os)
    = Some final
    /\ fst final
       = fst (consume_all Posix._append_char_to_line Posix._flush chunks (self, os))
    /\ Posix.sink (snd final)
       = Posix.sink
           (snd (consume_all Posix._append_char_to_line Posix._flush chunks (self, os)))
         ++ [{| severity := ErrorSeverity;
                text := lit "[" ++ Posix.proc_name self ++ lit "] failed to read pipe" |};
             {| severity := Verbose;
                text := lit "[" ++ Posix.proc_name self ++ lit "] closed ("
                        ++ Posix.decimal (Posix.WEXITSTATUS status) ++ lit ")" |}]
    /\ Posix.calls (snd final)
       = Posix.calls os ++ [Posix.close_call (Posix.pipefd0 self);
                            Posix.waitpid_call (Posix.child_id_ self) false]
    /\ Posix.fd_open (Posix.pipefd0 self) (Posix.fds (snd final)) = false.
Proof.
  intros Hflag.
  assert (Hrun : forall chunks at_head self os, Posix.is_closing self = false ->
            Posix._thread_run (map Posix.Data chunks ++ Posix.Failed :: later)
                              at_head (self, os)
            = Some (Posix.thread_epilogue
                      (fst (consume_all Posix._append_char_to_line Posix._flush
                                        chunks (self, os)),
                       Posix.log ErrorSeverity
                         (lit "[" ++ Posix.proc_name
                                       (fst (consume_all Posix._append_char_to_line
                                               Posix._flush chunks (self, os)))
                          ++ lit "] failed to read pipe")
                         (snd (consume_all Posix._append_char_to_line Posix._flush
                                           chunks (self, os)))))).
  { clear. induction chunks as [|c chunks IH]; intros at_head self os Hflag.
    - cbn [map List.app Posix._thread_run]. cbn [fst]. rewrite Hflag, andb_false_r.
      reflexivity.
    - cbn [map List.app Posix._thread_run]. cbn [fst]. rewrite Hflag, andb_false_r.
      unfold consume_all. cbn [fold_left].
      change (consume Posix._append_char_to_line Posix._flush c (self, os))
        with (Posix.consume_chunk c (self, os)).
      destruct (Posix.consume_chunk c (self, os)) as [self' os'] eqn:E.
      apply IH. pose proof (posix_consume_is_closing c self os) as H.
      rewrite E in H. cbn in H. congruence. }
  rewrite (Hrun chunks true self os Hflag).
  destruct (posix_consume_all_frame chunks self os) as (_ & Hn & Hp & Hc & Hcalls & Hfds).
  destruct (consume_all Posix._append_char_to_line Posix._flush chunks (self, os))
    as [self' os'].
  cbn [fst snd] in *.
  unfold Posix.thread_epilogue.
  pose proof (posix_waitpid_calls (Posix.child_id_ self') false
                (Posix.close (Posix.pipefd0 self')
                   (Posix.log ErrorSeverity
                      (lit "[" ++ Posix.proc_name self' ++ lit "] failed to read pipe")
                      os'))) as Hw.
  assert (Hwf : Posix.fds (snd (Posix.waitpid (Posix.child_id_ self') false
                (Posix.close (Posix.pipefd0 self')
                   (Posix.log ErrorSeverity
                      (lit "[" ++ Posix.proc_name self' ++ lit "] failed to read pipe")
                      os'))))
                = Posix.fd_close (Posix.pipefd0 self') (Posix.fds os')).
  { unfold Posix.waitpid. case_if; [|reflexivity].
    cbn. destruct (Posix.child os'); reflexivity. }
  assert (Hws : Posix.sink (snd (Posix.waitpid (Posix.child_id_ self') false
                (Posix.close (Posix.pipefd0 self')
                   (Posix.log ErrorSeverity
                      (lit "[" ++ Posix.proc_name self' ++ lit "] failed to read pipe")
                      os'))))
                = Posix.sink os'
                  ++ [{| severity := ErrorSeverity;
                         text := lit "[" ++ Posix.proc_name self'
                                 ++ lit "] failed to read pipe" |}]).
  { unfold Posix.waitpid. case_if; [|reflexivity].
    cbn. destruct (Posix.child os'); reflexivity. }
  destruct (Posix.waitpid (Posix.child_id_ self') false _) as [[ret status] os''].
  cbn [snd] in Hw, Hwf, Hws.
  eexists. exists status. split; [reflexivity|].
  cbn [fst snd Posix.sink Posix.log Posix.set_sink Posix.calls Posix.fds].
  unfold JSB_PROCESS_LOG.
  rewrite Hws, Hw, Hwf, <- Hn, <- Hp, <- Hc.
  cbn [Posix.calls Posix.close Posix.set_fds Posix.record_call Posix.log Posix.set_sink].
  rewrite Hcalls, <- !app_assoc.
  repeat split. apply fd_open_close_same.
Qed.

Lemma posix_reader_on_failed_read_witness :
  Posix.is_closing (fst posix_started) = false
  /\ exists final,
       Posix._thread_run (map Posix.Data [lit "a"] ++ [Posix.Failed]) true
                         (fst posix_started, snd posix_started)
       = Some final
       /\ Posix.fd_open (Posix.pipefd0 (fst posix_started)) (Posix.fds (snd final)) = false.
Proof.
  assert (H : Posix.is_closing (fst posix_started) = false) by reflexivity.
  split; [exact H|].
  destruct (posix_reader_on_failed_read [lit "a"] [] (fst posix_started)
              (snd posix_started) H)
    as (final & status & Hrun & _ & _ & _ & Hclosed).
  exists final. split; [exact Hrun | exact Hclosed].
Defined.

(** ** Running state and the child *)

Lemma win_handle_open_true h os :
  In h (Win.open_handles os) -> Win.handle_open h os = true.
Proof.
  intros Hin. unfold Win.handle_open. apply existsb_exists.
  exists h. split; [exact Hin | apply Z.eqb_refl].
Qed.

Lemma win_on_start_ok_child flt n p a self0 os0 self os1 :
  Win.on_start flt n p a self0 os0 = (OK, self, os1) ->
  Win.pi_hProcess self = Z.pos (Win.next_handle os0 + 2)
  /\ Win.pi_hThread self = Z.pos (Win.next_handle os0 + 2 + 1)
  /\ Win.child os1 = Win.Alive
  /\ Win.child_hProcess os1 = Win.pi_hProcess self
  /\ Win.sink os1 = Win.sink os0
  /\ Win.open_handles os1
     = remove Z.eq_dec (Z.pos (Win.next_handle os0 + 1))
         ((Win.open_handles os0
           ++ [Z.pos (Win.next_handle os0); Z.pos (Win.next_handle os0 + 1)])
          ++ [Z.pos (Win.next_handle os0 + 2); Z.pos (Win.next_handle os0 + 2 + 1)]).
Proof.
  unfold Win.on_start, Win.CreatePipe, Win.SetHandleInformation, Win.CreateProcessW.
  destruct (Win.CreatePipe_ok flt); [|discriminate].
  destruct (Win.SetHandleInformation_ok flt); [|discriminate].
  cbn. destruct (Win.CreateProcessW_ok flt); [|discriminate].
  cbn. intros H. injection H as <- <-. cbn. repeat split.
Qed.

(** X11. After a successful start on Windows [is_running] is true and
    asking changes nothing; once the child has exited with code [c] it is
    true exactly when [c] is [STILL_ACTIVE] (259). *)
Theorem win_is_running_follows_child flt n p a os0 self os1 :
  Win.on_start flt n p a Win.new_ProcessImpl os0 = (OK, self, os1) ->
  is_running self os1 = (true, os1)
  /\ forall code,
       is_running self (Win.set_child (Win.Exited code) os1)
       = (code =? Win.STILL_ACTIVE, Win.set_child (Win.Exited code) os1).
Proof.
  intros Hstart.
  destruct (win_on_start_ok _ _ _ _ _ _ _ _ Hstart) as (_ & _ & _ & _ & Hflag & _).
  destruct (win_on_start_ok_child _ _ _ _ _ _ _ _ Hstart)
    as (Hp & _ & Hchild & Hcp & _ & Hopen).
  assert (Hin : Win.handle_open (Win.pi_hProcess self) os1 = true).
  { apply win_handle_open_true. rewrite Hopen, Hp.
    apply in_in_remove; [intros E; injection E as E; lia|].
    apply in_or_app. right. left. reflexivity. }
  unfold is_running. cbn [_is_running Win.ops].
  unfold Win._is_running, Win.GetExitCodeProcess.
  rewrite Hflag. cbn [Win.is_closing Win.new_ProcessImpl orb].
  replace (Win.pi_hProcess self =? Win.nullptr) with false
    by (symmetry; apply Z.eqb_neq; rewrite Hp; unfold Win.nullptr; lia).
  split.
  - rewrite Hin, Hcp, Z.eqb_refl, Hchild. reflexivity.
  - intros code.
    change (Win.handle_open (Win.pi_hProcess self)
              (Win.set_child (Win.Exited code) os1))
      with (Win.handle_open (Win.pi_hProcess self) os1).
    cbn [Win.child_hProcess Win.set_child Win.child].
    rewrite Hin, Hcp, Z.eqb_refl. cbn [andb].
    destruct (code =? Win.STILL_ACTIVE); reflexivity.
Qed.

Lemma win_is_running_follows_child_witness :
  Win.on_start Win.no_faults (lit "tsc") (lit "C:/bin/tsc") [lit "--watch"]
               Win.new_ProcessImpl Win.boot
  = (OK, fst win_started, snd win_started)
  /\ is_running (fst win_started) (Win.set_child (Win.Exited 1) (snd win_started))
     = (false, Win.set_child (Win.Exited 1) (snd win_started)).
Proof.
  assert (H : Win.on_start Win.no_faults (lit "tsc") (lit "C:/bin/tsc") [lit "--watch"]
                Win.new_ProcessImpl Win.boot
              = (OK, fst win_started, snd win_started)) by reflexivity.
  split; [exact H|].
  exact (proj2 (win_is_running_follows_child _ _ _ _ _ _ _ H) 1).
Defined.




(** ** What [stop] logs *)

Lemma posix_kill_sink pid sig os : Posix.sink (snd (Posix.kill pid sig os)) = Posix.sink os.
Proof.
  unfold Posix.kill. destruct ((0 <? pid) && (pid =? Posix.child_pid os)); [|reflexivity].
  destruct (Posix.child os); reflexivity.
Qed.




(** ** Start: thread and child *)

(** X14. [on_start] either succeeds, with the reader thread started and
    the child made, its calls being pipe creation, (on Windows) handle
    marking, process creation, close of the write end and thread start in
    that order, or it fails with neither: the thread object and the child
    are as before and no thread was started. *)
Theorem on_start_thread_and_child_together :
  (forall flt n p a self os,
      let r := Win.on_start flt n p a self os in
      (fst (fst r) = OK
       /\ Win.thread (snd (fst r)) = Started
       /\ Win.child (snd r) = Win.Alive
       /\ Win.calls (snd r)
          = Win.calls os ++ [Win.CreatePipe_call true;
                             Win.SetHandleInformation_call (Win.rd_pipe (snd (fst r))) true;
                             Win.CreateProcessW_call (Quote.command_line p a) true;
                             Win.CloseHandle_call (Win.si_hStdOutput (snd (fst r)));
                             Win.Thread_start_call])
      \/ (fst (fst r) = ERR_CANT_FORK
          /\ Win.thread (snd (fst r)) = Win.thread self
          /\ Win.rd_pipe (snd (fst r)) = Win.rd_pipe self
          /\ Win.pi_hProcess (snd (fst r)) = Win.nullptr
          /\ Win.child (snd r) = Win.child os
          /\ ~ In Win.Thread_start_call
                  (skipn (List.length (Win.calls os)) (Win.calls (snd r)))))
  /\ (forall flt n p a self os,
         let r := Posix.on_start flt n p a self os in
         (fst (fst r) = OK
          /\ Posix.thread (snd (fst r)) = Started
          /\ Posix.child_pid (snd r) = Posix.child_id_ (snd (fst r))
          /\ 0 < Posix.child_id_ (snd (fst r))
          /\ Posix.child_argv (snd r) = p :: a
          /\ Posix.calls (snd r)
             = Posix.calls os ++ [Posix.pipe_call true; Posix.fork_call true;
                                  Posix.close_call (Posix.pipefd1 (snd (fst r)));
                                  Posix.Thread_start_call])
         \/ (fst (fst r) <> OK
             /\ Posix.thread (snd (fst r)) = Posix.thread self
             /\ (Posix.child_id_ (snd (fst r)) = Posix.child_id_ self
                 \/ Posix.child_id_ (snd (fst r)) = -1)
             /\ Posix.child (snd r) = Posix.child os
             /\ ~ In Posix.Thread_start_call
                     (skipn (List.length (Posix.calls os)) (Posix.calls (snd r))))).
Proof.
  assert (Hskip : forall (A : Type) (l t : list A), skipn (List.length l) (l ++ t) = t).
  { intros A l t. induction l as [|x l IH]; [reflexivity | exact IH]. }
  split; intros flt n p a self os; cbv zeta.
  - unfold Win.on_start, Win.CreatePipe, Win.SetHandleInformation, Win.CreateProcessW.
    destruct (Win.CreatePipe_ok flt); cbn.
    2:{ right. repeat split. rewrite Hskip. cbn. intros [H|[]]. discriminate. }
    destruct (Win.SetHandleInformation_ok flt); cbn.
    2:{ right. repeat split. rewrite <- app_assoc, Hskip. cbn.
        intros [H|[H|[]]]; discriminate. }
    destruct (Win.CreateProcessW_ok flt); cbn.
    + left. repeat split. rewrite <- !app_assoc. reflexivity.
    + right. repeat split. rewrite <- !app_assoc, Hskip. cbn.
      intros [H|[H|[H|[H|[H|[]]]]]]; discriminate.
  - unfold Posix.on_start, Posix.pipe, Posix.fork.
    destruct (Posix.pipe_ok flt); cbn.
    2:{ right. repeat split; [discriminate | left; reflexivity |].
        rewrite Hskip. cbn. intros [H|[]]. discriminate. }
    destruct (Posix.fork_ok flt); cbn.
    + left. repeat split. rewrite <- !app_assoc. reflexivity.
    + right. repeat split; [discriminate | right; reflexivity |].
      rewrite <- app_assoc, Hskip. cbn. intros [H|[H|[]]]; discriminate.
Qed.

(** ** The child's descriptors *)

Lemma fd_lookup_close_other fd fd' t :
  fd <> fd' -> Posix.fd_lookup fd (Posix.fd_close fd' t) = Posix.fd_lookup fd t.
Proof.
  intros Hne. induction t as [|[k o] t IH]; [reflexivity|].
  cbn. destruct (Z.eqb_spec k fd') as [->|Hk]; cbn.
  - replace (fd' =? fd) with false by (symmetry; apply Z.eqb_neq; congruence).
    exact IH.
  - destruct (k =? fd); [reflexivity | exact IH].
Qed.

(** X15. The child branch of [on_start] leaves every descriptor other
    than the two pipe ends and descriptor 1 as the child inherited it:
    standard input, standard error and whatever else the supervisor had
    open. *)
Theorem child_keeps_other_descriptors (pipefd0 pipefd1 fd : Z) (t : Posix.FdTable) :
  fd <> pipefd0 -> fd <> pipefd1 -> fd <> Posix.STDOUT_FILENO ->
  Posix.fd_lookup fd (Posix.child_branch pipefd0 pipefd1 t) = Posix.fd_lookup fd t.
Proof.
  intros H0 H1 Hout. unfold Posix.child_branch, Posix.fd_dup2.
  rewrite fd_lookup_close_other by exact H1.
  destruct (Posix.fd_lookup pipefd1 (Posix.fd_close pipefd0 t)) as [o|].
  - cbn [Posix.fd_lookup].
    replace (Posix.STDOUT_FILENO =? fd) with false
      by (symmetry; apply Z.eqb_neq; congruence).
    rewrite !fd_lookup_close_other by assumption. reflexivity.
  - apply fd_lookup_close_other. exact H0.
Qed.

Lemma child_keeps_other_descriptors_witness :
  Posix.STDERR_FILENO <> 3 /\ Posix.STDERR_FILENO <> 4
  /\ Posix.STDERR_FILENO <> Posix.STDOUT_FILENO
  /\ Posix.fd_lookup Posix.STDERR_FILENO
       (Posix.child_branch 3 4 (Posix.fds Posix.boot ++ [(3, Posix.PipeRead);
                                                         (4, Posix.PipeWrite)]))
     = Some (Posix.Inherited 2).
Proof.
  assert (H0 : Posix.STDERR_FILENO <> 3) by discriminate.
  assert (H1 : Posix.STDERR_FILENO <> 4) by discriminate.
  assert (H2 : Posix.STDERR_FILENO <> Posix.STDOUT_FILENO) by discriminate.
  split; [exact H0|]. split; [exact H1|]. split; [exact H2|].
  rewrite (child_keeps_other_descriptors 3 4 Posix.STDERR_FILENO _ H0 H1 H2).
  reflexivity.
Defined.

(** X16. When the pipe's write end is not descriptor 1, the child's
    standard output becomes that write end and the write end's own
    descriptor is closed in the child; the read end's descriptor is closed
    too, unless it is descriptor 1 itself, which then refers to the write
    end.  When the write end is descriptor 1 itself — the supervisor had
    descriptors 0 and 1 closed — the child is left without standard
    output. *)
Theorem child_stdout_is_pipe_unless_fd1
        (pipefd0 pipefd1 : Z) (o : Posix.FileObj) (t : Posix.FdTable) :
  Posix.fd_lookup pipefd1 t = Some o -> pipefd0 <> pipefd1 ->
  (pipefd1 <> Posix.STDOUT_FILENO ->
   Posix.fd_lookup Posix.STDOUT_FILENO (Posix.child_branch pipefd0 pipefd1 t) = Some o
   /\ Posix.fd_lookup pipefd1 (Posix.child_branch pipefd0 pipefd1 t) = None
   /\ Posix.fd_lookup pipefd0 (Posix.child_branch pipefd0 pipefd1 t)
      = if pipefd0 =? Posix.STDOUT_FILENO then Some o else None)
  /\ (pipefd1 = Posix.STDOUT_FILENO ->
      Posix.fd_lookup Posix.STDOUT_FILENO (Posix.child_branch pipefd0 pipefd1 t) = None).
Proof.
  intros Hw Hne. unfold Posix.child_branch, Posix.fd_dup2.
  rewrite (fd_lookup_close_other pipefd1 pipefd0 t) by congruence.
  rewrite Hw. split.
  - intros Hout.
    assert (Hstdout : Posix.fd_lookup Posix.STDOUT_FILENO
                        (Posix.fd_close pipefd1
                           ((Posix.STDOUT_FILENO, o)
                            :: Posix.fd_close Posix.STDOUT_FILENO
                                 (Posix.fd_close pipefd0 t)))
                      = Some o).
    { rewrite fd_lookup_close_other by congruence. cbn [Posix.fd_lookup].
      rewrite Z.eqb_refl. reflexivity. }
    split; [exact Hstdout|]. split; [apply fd_lookup_close_same|].
    destruct (Z.eqb_spec pipefd0 Posix.STDOUT_FILENO) as [-> | H0]; [exact Hstdout|].
    rewrite fd_lookup_close_other by exact Hne.
    cbn [Posix.fd_lookup].
    replace (Posix.STDOUT_FILENO =? pipefd0) with false
      by (symmetry; apply Z.eqb_neq; congruence).
    rewrite fd_lookup_close_other by exact H0. apply fd_lookup_close_same.
  - intros ->. apply fd_lookup_close_same.
Qed.

Lemma child_stdout_is_pipe_unless_fd1_witness :
  (Posix.fd_lookup 4 (Posix.fds Posix.boot ++ [(3, Posix.PipeRead); (4, Posix.PipeWrite)])
   = Some Posix.PipeWrite
   /\ 3 <> 4 /\ 4 <> Posix.STDOUT_FILENO
   /\ Posix.fd_lookup Posix.STDOUT_FILENO
        (Posix.child_branch 3 4 (Posix.fds Posix.boot ++ [(3, Posix.PipeRead);
                                                          (4, Posix.PipeWrite)]))
      = Some Posix.PipeWrite
   /\ Posix.fd_lookup 3
        (Posix.child_branch 3 4 (Posix.fds Posix.boot ++ [(3, Posix.PipeRead);
                                                          (4, Posix.PipeWrite)]))
      = None)
  /\ (Posix.fd_lookup 3 [(0, Posix.Inherited 0); (2, Posix.Inherited 2);
                         (1, Posix.PipeRead); (3, Posix.PipeWrite)]
      = Some Posix.PipeWrite
      /\ 1 <> 3 /\ 3 <> Posix.STDOUT_FILENO
      /\ Posix.fd_lookup 1
           (Posix.child_branch 1 3 [(0, Posix.Inherited 0); (2, Posix.Inherited 2);
                                    (1, Posix.PipeRead); (3, Posix.PipeWrite)])
         = Some Posix.PipeWrite)
  /\ (Posix.fd_lookup 1 [(2, Posix.Inherited 2); (0, Posix.PipeRead); (1, Posix.PipeWrite)]
      = Some Posix.PipeWrite
      /\ 0 <> 1 /\ 1 = Posix.STDOUT_FILENO
      /\ Posix.fd_lookup Posix.STDOUT_FILENO
           (Posix.child_branch 0 1 [(2, Posix.Inherited 2); (0, Posix.PipeRead);
                                    (1, Posix.PipeWrite)])
         = None).
Proof.
  split; [|split].
  - assert (H1 : Posix.fd_lookup 4 (Posix.fds Posix.boot
                                    ++ [(3, Posix.PipeRead); (4, Posix.PipeWrite)])
                 = Some Posix.PipeWrite) by reflexivity.
    assert (H2 : 3 <> 4) by discriminate.
    assert (H3 : 4 <> Posix.STDOUT_FILENO) by discriminate.
    split; [exact H1|]. split; [exact H2|]. split; [exact H3|].
    destruct (proj1 (child_stdout_is_pipe_unless_fd1 3 4 _ _ H1 H2) H3)
      as (Hout & _ & Hrd).
    split; [exact Hout | exact Hrd].
  - assert (H1 : Posix.fd_lookup 3 [(0, Posix.Inherited 0); (2, Posix.Inherited 2);
                                    (1, Posix.PipeRead); (3, Posix.PipeWrite)]
                 = Some Posix.PipeWrite) by reflexivity.
    assert (H2 : 1 <> 3) by discriminate.
    assert (H3 : 3 <> Posix.STDOUT_FILENO) by discriminate.
    split; [exact H1|]. split; [exact H2|]. split; [exact H3|].
    exact (proj2 (proj2 (proj1 (child_stdout_is_pipe_unless_fd1 1 3 _ _ H1 H2) H3))).
  - assert (H1 : Posix.fd_lookup 1 [(2, Posix.Inherited 2); (0, Posix.PipeRead);
                                    (1, Posix.PipeWrite)]
                 = Some Posix.PipeWrite) by reflexivity.
    assert (H2 : 0 <> 1) by discriminate.
    split; [exact H1|]. split; [exact H2|]. split; [reflexivity|].
    exact (proj2 (child_stdout_is_pipe_unless_fd1 0 1 _ _ H1 H2) eq_refl).
Defined.

(** ** The command line as a whole *)

Lemma quote_spec p_text :
  Quote._quote_command_line_argument p_text
  = if existsb Quote.needs_quote p_text then DQUOTE :: p_text ++ [DQUOTE] else p_text.
Proof. apply quote_loop_spec. Qed.

Lemma command_line_fold args : forall command,
  fold_left (fun command E => command ++ SPACE :: Quote._quote_command_line_argument E)
            args command
  = command ++ flat_map (fun E => SPACE :: Quote._quote_command_line_argument E) args.
Proof.
  induction args as [|E args IH]; intros command.
  - cbn. rewrite app_nil_r. reflexivity.
  - cbn [fold_left flat_map]. rewrite IH, <- app_assoc. reflexivity.
Qed.

(** X17. The command line is the quoted path, its slashes turned into
    backslashes, followed by every argument, quoted on its own and preceded
    by one space; appending arguments appends to the command line. *)
Theorem command_line_layout (p_path : GString) (p_arguments : list GString) :
  Quote.command_line p_path p_arguments
  = Quote._quote_command_line_argument (Quote.replace_slashes p_path)
    ++ flat_map (fun E => SPACE :: Quote._quote_command_line_argument E) p_arguments
  /\ ~ In SLASH (Quote.replace_slashes p_path)
  /\ List.length (Quote.replace_slashes p_path) = List.length p_path
  /\ forall more,
       Quote.command_line p_path (p_arguments ++ more)
       = Quote.command_line p_path p_arguments
         ++ flat_map (fun E => SPACE :: Quote._quote_command_line_argument E) more.
Proof.
  assert (H : forall args,
             Quote.command_line p_path args
             = Quote._quote_command_line_argument (Quote.replace_slashes p_path)
               ++ flat_map (fun E => SPACE :: Quote._quote_command_line_argument E) args).
  { intros args. unfold Quote.command_line. apply command_line_fold. }
  split; [apply H|]. split; [|split].
  - unfold Quote.replace_slashes. intros Hin. apply in_map_iff in Hin as (c & Hc & _).
    destruct (c =? SLASH) eqn:E; [discriminate Hc | apply Z.eqb_neq in E; contradiction].
  - apply length_map.
  - intros more. rewrite !H, flat_map_app, app_assoc. reflexivity.
Qed.

(** X18. Embedded double quotes are passed through unescaped, so they
    can forge an argument boundary: the one argument [x y] with a space and
    the two arguments ["x] and [y"] give the same command line. *)
Theorem embedded_quotes_forge_a_boundary (p_path x y : GString) :
  existsb Quote.needs_quote x = false ->
  existsb Quote.needs_quote y = false ->
  Quote.command_line p_path [x ++ SPACE :: y]
  = Quote.command_line p_path [DQUOTE :: x; y ++ [DQUOTE]].
Proof.
  intros Hx Hy. unfold Quote.command_line. cbn [fold_left].
  rewrite !quote_spec.
  replace (existsb Quote.needs_quote (x ++ SPACE :: y)) with true
    by (rewrite existsb_app; cbn; rewrite orb_true_r; reflexivity).
  replace (existsb Quote.needs_quote (DQUOTE :: x)) with false
    by (cbn; rewrite Hx; reflexivity).
  replace (existsb Quote.needs_quote (y ++ [DQUOTE])) with false
    by (rewrite existsb_app, Hy; reflexivity).
  rewrite <- ?app_assoc. cbn [List.app]. rewrite <- ?app_assoc. reflexivity.
Qed.

Lemma embedded_quotes_forge_a_boundary_witness :
  existsb Quote.needs_quote (lit "rm") = false
  /\ existsb Quote.needs_quote (lit "-rf") = false
  /\ Quote.command_line (lit "sh") [lit "rm -rf"]
     = Quote.command_line (lit "sh") [DQUOTE :: lit "rm"; lit "-rf" ++ [DQUOTE]].
Proof.
  split; [reflexivity|]. split; [reflexivity|].
  exact (embedded_quotes_forge_a_boundary (lit "sh") (lit "rm") (lit "-rf") eq_refl eq_refl).
Defined.

(** ** Start followed by stop gives everything back *)

Lemma remove_hd_eq (x : Z) l : remove Z.eq_dec x (x :: l) = remove Z.eq_dec x l.
Proof. cbn. destruct (Z.eq_dec x x); [reflexivity | contradiction]. Qed.

Lemma remove_hd_neq (x y : Z) l :
  x <> y -> remove Z.eq_dec x (y :: l) = y :: remove Z.eq_dec x l.
Proof. intros H. cbn. destruct (Z.eq_dec x y); [contradiction | reflexivity]. Qed.

Lemma remove_nil (x : Z) : remove Z.eq_dec x [] = [].
Proof. reflexivity. Qed.


(** X19. On a system whose open handles are all older than the next one
    to be handed out, a successful start followed by [stop] on the still
    running child leaves exactly the handles that were open before. *)
Theorem win_start_stop_returns_handles flt n p a os0 self os1 os2 :
  Forall (fun h => h < Z.pos (Win.next_handle os0)) (Win.open_handles os0) ->
  Win.on_start flt n p a Win.new_ProcessImpl os0 = (OK, self, os1) ->
  Win.os_steps os1 os2 ->
  fst (is_running self os2) = true ->
  Win.open_handles (snd (stop self os2)) = Win.open_handles os0.
Proof.
  intros Hfresh Hstart Hsteps Hrun.
  unfold is_running in Hrun. cbn [_is_running Win.ops] in Hrun.
  rewrite win_stop_unfold, Hrun, win_on_stop_handles.
  destruct (win_on_start_ok _ _ _ _ _ _ _ _ Hstart) as (Hrd & _).
  destruct (win_on_start_ok_child _ _ _ _ _ _ _ _ Hstart)
    as (Hp & Ht & _ & _ & _ & Hopen).
  destruct (win_steps_frame _ _ Hsteps) as (-> & _).
  rewrite Hopen, Hrd, Hp, Ht.
  assert (Hnot : forall h, Z.pos (Win.next_handle os0) <= h ->
                           ~ In h (Win.open_handles os0)).
  { intros h Hh Hin. rewrite Forall_forall in Hfresh. specialize (Hfresh h Hin). lia. }
  rewrite !remove_app.
  rewrite !(notin_remove Z.eq_dec (Win.open_handles os0)) by (apply Hnot; lia).
  repeat (rewrite remove_hd_eq
          || rewrite remove_hd_neq by (intros E; injection E as E; lia)
          || rewrite remove_nil).
  rewrite !app_nil_r. reflexivity.
Qed.

Lemma win_start_stop_returns_handles_witness :
  Forall (fun h => h < Z.pos (Win.next_handle Win.boot)) (Win.open_handles Win.boot)
  /\ Win.on_start Win.no_faults (lit "tsc") (lit "C:/bin/tsc") [lit "--watch"]
                  Win.new_ProcessImpl Win.boot
     = (OK, fst win_started, snd win_started)
  /\ Win.os_steps (snd win_started) (snd win_started)
  /\ fst (is_running (fst win_started) (snd win_started)) = true
  /\ Win.open_handles (snd (stop (fst win_started) (snd win_started))) = [].
Proof.
  assert (H0 : Forall (fun h => h < Z.pos (Win.next_handle Win.boot))
                 (Win.open_handles Win.boot)) by constructor.
  assert (H1 : Win.on_start Win.no_faults (lit "tsc") (lit "C:/bin/tsc") [lit "--watch"]
                 Win.new_ProcessImpl Win.boot
               = (OK, fst win_started, snd win_started)) by reflexivity.
  assert (H3 : fst (is_running (fst win_started) (snd win_started)) = true)
    by reflexivity.
  split; [exact H0|]. split; [exact H1|]. split; [apply Win.os_steps_refl|].
  split; [exact H3|].
  exact (win_start_stop_returns_handles _ _ _ _ _ _ _ _ H0 H1 (Win.os_steps_refl _) H3).
Defined.

(** *** Descriptors handed out by [pipe] are free *)






Lemma fd_open_app_single fd k o t :
  Posix.fd_open fd (t ++ [(k, o)]) = false ->
  Posix.fd_open fd t = false /\ fd <> k.
Proof.
  unfold Posix.fd_open. induction t as [|[k' o'] t IH]; cbn.
  - destruct (Z.eqb_spec k fd) as [->|Hne]; [discriminate|].
    intros _. split; [reflexivity | congruence].
  - destruct (k' =? fd); [discriminate | exact IH].
Qed.



(** ** Teardown of a running handle *)









